(** * SmartBookmarks: the content-indexing and vector-search pipeline

    A shallow embedding of [bookmarks/utils.py]: the FAISS helpers
    ([_load_faiss], [_save_faiss], [add_embedding_to_index],
    [search_embeddings]), the two model wrappers ([generate_embedding],
    [auto_tag]) and the orchestration in [process_bookmark].

    Modelling conventions.
    - A Python call either returns, raises an exception derived from
      [Exception] (the only ones an [except Exception] clause catches), or
      is interrupted by a [BaseException] outside that class
      (KeyboardInterrupt, SystemExit): type [outcome].
    - Float components and classifier scores are exact rationals [Q]; the
      rounding of 32-bit floats is not modelled. What the proofs use of
      distances (zero between equal vectors, never negative, totally
      ordered) holds of finite floats too.
    - A Python [str] is a [string] of code points below 256; [str(i)] of
      an integer is its decimal rendering, stdpp's [pretty].
    - The JSON mapping file holds an object from string keys to integers,
      i.e. a [gmap string Z]; the index file holds the flat index. *)

From Stdlib Require Import QArith.
From Stdlib Require Import Ascii String Sorted.
From stdpp Require Import gmap strings list pretty.

Local Open Scope Z_scope.

(** ** Outcomes of a call *)

Inductive outcome (A : Type) : Type :=
| Return (a : A)
| Raise
| Abort.
Arguments Return {A} a.
Arguments Raise {A}.
Arguments Abort {A}.

(** ** The flat L2 index of the faiss library

    [faiss.IndexFlatL2(d)] stores its vectors in insertion order; [add]
    asserts that the dimension matches; [search] asserts the dimension of
    the query and [k > 0], and returns the labels of the [k] stored vectors
    with the smallest squared distance, nearest first, the lower label
    first among equal distances, padded with [-1] when fewer than [k]
    vectors are stored. *)

Module Faiss.

Record IndexFlatL2 : Type := { d : nat; xb : list (list Q) }.

Definition new_index (dim : nat) : IndexFlatL2 := {| d := dim; xb := [] |}.

Definition ntotal (index : IndexFlatL2) : nat := length (xb index).

Definition add (index : IndexFlatL2) (vec : list Q) : outcome IndexFlatL2 :=
  if decide (length vec = d index)
  then Return {| d := d index; xb := xb index ++ [vec] |}
  else Raise.

Fixpoint fvec_L2sqr (x y : list Q) : Q :=
  match x, y with
  | a :: x', b :: y' => ((a - b) * (a - b) + fvec_L2sqr x' y')%Q
  | _, _ => 0%Q
  end.

(** Candidates are (label, distance) pairs kept in ascending distance. *)
Fixpoint insert_candidate (c : nat * Q) (l : list (nat * Q)) : list (nat * Q) :=
  match l with
  | [] => [c]
  | c' :: l' =>
      if Qle_bool (snd c) (snd c') then c :: c' :: l'
      else c' :: insert_candidate c l'
  end.

Definition rank (cs : list (nat * Q)) : list (nat * Q) :=
  foldr insert_candidate [] cs.

Definition candidates (index : IndexFlatL2) (q : list Q) : list (nat * Q) :=
  zip (seq 0 (ntotal index)) (map (fvec_L2sqr q) (xb index)).

Definition knn (index : IndexFlatL2) (q : list Q) (k : nat) : list Z :=
  let best := take k (rank (candidates index q)) in
  map (fun c => Z.of_nat (fst c)) best ++ replicate (k - length best) (-1).

Definition search (index : IndexFlatL2) (q : list Q) (k : Z) : outcome (list Z) :=
  if decide (length q = d index)
  then if decide (0 < k) then Return (knn index q (Z.to_nat k)) else Raise
  else Raise.

End Faiss.

(** ** The vector store on disk *)

Record Disk : Type := {
  FAISS_INDEX_FILE : option Faiss.IndexFlatL2;
  VECTOR_MAP_FILE : option (gmap string Z)
}.

Definition fresh_disk : Disk :=
  {| FAISS_INDEX_FILE := None; VECTOR_MAP_FILE := None |}.

(** [str(i)] on an integer. *)
Definition str (i : Z) : string := pretty i.

Definition _load_faiss (disk : Disk) : option Faiss.IndexFlatL2 * gmap string Z :=
  let vec_map := match VECTOR_MAP_FILE disk with
                 | Some m => m
                 | None => ∅
                 end in
  let index := FAISS_INDEX_FILE disk in
  (index, vec_map).

Definition _save_faiss (index : option Faiss.IndexFlatL2) (vec_map : gmap string Z)
    (disk : Disk) : Disk :=
  {| FAISS_INDEX_FILE := match index with
                         | Some i => Some i
                         | None => FAISS_INDEX_FILE disk
                         end;
     VECTOR_MAP_FILE := Some vec_map |}.

Definition add_embedding_to_index (bookmark_id : Z) (emb : list Q) (disk : Disk)
    : outcome Disk :=
  let '(index, vec_map) := _load_faiss disk in
  let vec := emb in
  let index := match index with
               | None => Faiss.new_index (length vec)
               | Some i => i
               end in
  let pos := Z.of_nat (Faiss.ntotal index) in
  match Faiss.add index vec with
  | Return index =>
      let vec_map := <[str pos := bookmark_id]> vec_map in
      Return (_save_faiss (Some index) vec_map disk)
  | Raise => Raise
  | Abort => Abort
  end.

(** The body of [search_embeddings] after the load. *)
Definition search_loaded (index : option Faiss.IndexFlatL2) (vec_map : gmap string Z)
    (query_vec : list Q) (k : Z) : outcome (list Z) :=
  match index with
  | None => Return []
  | Some index =>
      if decide (Faiss.ntotal index = 0%nat) then Return []
      else
        match Faiss.search index query_vec (Z.min k (Z.of_nat (Faiss.ntotal index))) with
        | Return idxs => Return (omap (fun i => vec_map !! str i) idxs)
        | Raise => Raise
        | Abort => Abort
        end
  end.

Definition search_embeddings (query_vec : list Q) (k : Z) (disk : Disk)
    : outcome (list Z) :=
  let '(index, vec_map) := _load_faiss disk in
  search_loaded index vec_map query_vec k.

(** A sequence of [add] calls, each guarded as in [process_bookmark]: a
    call that raises is logged and leaves the store as it was. *)
Definition guarded_add (disk : Disk) (call : Z * list Q) : Disk :=
  match add_embedding_to_index (fst call) (snd call) disk with
  | Return disk' => disk'
  | _ => disk
  end.

Definition add_all (calls : list (Z * list Q)) (disk : Disk) : Disk :=
  foldl guarded_add disk calls.

(** The calls of [calls] that return when run in order from [disk]. *)
Fixpoint accepted (calls : list (Z * list Q)) (disk : Disk) : list (Z * list Q) :=
  match calls with
  | [] => []
  | c :: calls' =>
      match add_embedding_to_index (fst c) (snd c) disk with
      | Return disk' => c :: accepted calls' disk'
      | _ => accepted calls' disk
      end
  end.

Definition successes (calls : list (Z * list Q)) (disk : Disk) : nat :=
  length (accepted calls disk).

(** Observations of a store. *)
Definition mapping (disk : Disk) : gmap string Z := snd (_load_faiss disk).

Definition stored (disk : Disk) : list (list Q) :=
  match fst (_load_faiss disk) with
  | Some index => Faiss.xb index
  | None => []
  end.

Definition disk_ntotal (disk : Disk) : nat := length (stored disk).

(** The mapping has one entry per stored vector, keyed by the positions
    below [ntotal]. *)
Definition mapping_tracks_index (disk : Disk) : Prop :=
  size (mapping disk) = disk_ntotal disk ∧
  ∀ key : string, is_Some (mapping disk !! key) ↔
    ∃ p : nat, (p < disk_ntotal disk)%nat ∧ key = str (Z.of_nat p).

(** No document id is recorded at two positions. *)
Definition one_position_per_id (disk : Disk) : Prop :=
  ∀ (p1 p2 : nat) (doc : Z),
    mapping disk !! str (Z.of_nat p1) = Some doc →
    mapping disk !! str (Z.of_nat p2) = Some doc → p1 = p2.



(** A document indexed twice, as after [bookmark_edit]. *)
Definition twice_indexed : Disk :=
  add_all [(7, [1%Q; 0%Q]); (7, [1%Q; 0%Q])] fresh_disk.

(** ** Python strings *)

(** [str.isspace] on the code points below 256. *)
Definition isspace (c : Ascii.ascii) : bool :=
  let n := nat_of_ascii c in
  ((9 <=? n) && (n <=? 13) || (28 <=? n) && (n <=? 32)
   || (n =? 133) || (n =? 160))%nat.

Fixpoint lstrip (s : string) : string :=
  match s with
  | String c s' => if isspace c then lstrip s' else s
  | EmptyString => EmptyString
  end.

Definition strip (s : string) : string :=
  String.rev (lstrip (String.rev (lstrip s))).

Definition newline : string := String (ascii_of_nat 10) EmptyString.

(** [sep.join(ls)]. *)
Definition join (sep : string) (ls : list string) : string := String.concat sep ls.

(** Truth value of a [str]. *)
Definition nonempty (s : string) : bool :=
  match s with
  | EmptyString => false
  | String _ _ => true
  end.

(** ** The Django models the pipeline touches *)

Module models.

(** The in-memory instance with its related managers [links] and [files]. *)
Record Bookmark : Type := {
  id : Z;
  text : string;
  embedding : option (list Q);
  links : list string;
  files : list string
}.

End models.

(** The columns [save] writes for a bookmark. *)
Record BookmarkRow : Type := {
  row_text : string;
  row_embedding : option (list Q)
}.

(** The tables: bookmarks by id, tags by their unique name, and the
    many-to-many relation between them. *)
Record Database : Type := {
  bookmark_table : gmap Z BookmarkRow;
  tag_table : gset string;
  bookmark_tags : gset (Z * string)
}.

(** ** The external collaborators *)

Definition encoder : Type := string -> outcome (list Q).
Definition classifier : Type := string -> list string -> outcome (list string * list Q).

Record Env : Type := {
  extract_text_from_url : string -> outcome string;
  extract_text_from_file : string -> outcome string;
  (** [SentenceTransformer("all-MiniLM-L6-v2")], then [encode]. *)
  SentenceTransformer : outcome encoder;
  (** [pipeline("zero-shot-classification", ...)], then the call giving
      [res["labels"]] and [res["scores"]]. *)
  pipeline : outcome classifier
}.

(** ** The state of the process and of its stores *)

Inductive Event : Type :=
| Embedder_called (text : string)
| Tagger_called (text : string)
| Bookmark_saved (id : Z) (row : BookmarkRow)
| Tag_created (name : string)
| Tag_attached (id : Z) (name : string)
| Index_written (id : Z)
| Printed (msg : string).

Record World : Type := {
  db : Database;
  disk : Disk;
  _model : option encoder;      (* generate_embedding._model *)
  _clf : option classifier;     (* auto_tag._clf *)
  trace : list Event
}.

Definition set_db (f : Database -> Database) (w : World) : World :=
  {| db := f (db w); disk := disk w; _model := _model w; _clf := _clf w;
     trace := trace w |}.
Definition set_disk (dk : Disk) (w : World) : World :=
  {| db := db w; disk := dk; _model := _model w; _clf := _clf w;
     trace := trace w |}.
Definition set_model (m : encoder) (w : World) : World :=
  {| db := db w; disk := disk w; _model := Some m; _clf := _clf w;
     trace := trace w |}.
Definition set_clf (c : classifier) (w : World) : World :=
  {| db := db w; disk := disk w; _model := _model w; _clf := Some c;
     trace := trace w |}.
Definition log (e : Event) (w : World) : World :=
  {| db := db w; disk := disk w; _model := _model w; _clf := _clf w;
     trace := trace w ++ [e] |}.

(** ** A state monad with Python's two kinds of failure *)

Definition M (A : Type) : Type := World -> outcome A * World.

Definition ret {A} (a : A) : M A := fun w => (Return a, w).

Definition bind {A B} (m : M A) (k : A -> M B) : M B :=
  fun w =>
    match m w with
    | (Return a, w') => k a w'
    | (Raise, w') => (Raise, w')
    | (Abort, w') => (Abort, w')
    end.

Notation "x <~ m ;; k" := (bind m (fun x => k))
  (at level 100, m at next level, right associativity).
Notation "m ;;; k" := (bind m (fun _ => k))
  (at level 100, right associativity).

(** [try: body / except Exception: handler]. *)
Definition try_except {A} (body handler : M A) : M A :=
  fun w =>
    match body w with
    | (Raise, w') => handler w'
    | r => r
    end.

Definition call {A} (o : outcome A) : M A := fun w => (o, w).
Definition gets {A} (f : World -> A) : M A := fun w => (Return (f w), w).
Definition modify (f : World -> World) : M unit := fun w => (Return tt, f w).
Definition emit (e : Event) : M unit := modify (log e).
Definition print (msg : string) : M unit := emit (Printed msg).

(** ** 2. Embeddings *)

Definition generate_embedding (env : Env) (text : string) : M (list Q) :=
  emit (Embedder_called text) ;;;
  cached <~ gets _model ;;
  model <~ match cached with
           | Some m => ret m
           | None =>
               m <~ call (SentenceTransformer env) ;;
               modify (set_model m) ;;;
               ret m
           end ;;
  call (model text).

(** ** 3. Auto-tagging *)

Definition default_labels : list string :=
  ["natural language processing"; "machine learning"; "deep learning";
   "computer vision"; "data science"; "ai"; "tutorial"; "paper";
   "web development"; "python"; "chat log"; "research"]%string.

Definition default_threshold : Q := 3 # 10.

Definition auto_tag (env : Env) (text : string)
    (candidate_labels : option (list string)) (threshold : Q) : M (list string) :=
  emit (Tagger_called text) ;;;
  let candidate_labels := match candidate_labels with
                          | None => default_labels
                          | Some ls => ls
                          end in
  cached <~ gets _clf ;;
  clf <~ match cached with
         | Some c => ret c
         | None =>
             c <~ call (pipeline env) ;;
             modify (set_clf c) ;;;
             ret c
         end ;;
  res <~ call (clf text candidate_labels) ;;
  ret (map fst (filter (fun ls => Qle_bool threshold (snd ls) = true)
                  (zip (fst res) (snd res)))).

(** ** Storage operations of the models *)

Definition row_of (bookmark : models.Bookmark) : BookmarkRow :=
  {| row_text := models.text bookmark;
     row_embedding := models.embedding bookmark |}.

(** [bookmark.save()]. *)
Definition save (bookmark : models.Bookmark) : M unit :=
  let row := row_of bookmark in
  modify (set_db (fun dbs =>
    {| bookmark_table := <[models.id bookmark := row]> (bookmark_table dbs);
       tag_table := tag_table dbs;
       bookmark_tags := bookmark_tags dbs |})) ;;;
  emit (Bookmark_saved (models.id bookmark) row).

(** [Tag.objects.get_or_create(name=lbl)]. *)
Definition get_or_create (lbl : string) : M string :=
  tags <~ gets (fun w => tag_table (db w)) ;;
  if decide (lbl ∈ tags) then ret lbl
  else
    modify (set_db (fun dbs =>
      {| bookmark_table := bookmark_table dbs;
         tag_table := {[lbl]} ∪ tag_table dbs;
         bookmark_tags := bookmark_tags dbs |})) ;;;
    emit (Tag_created lbl) ;;;
    ret lbl.

(** [bookmark.tags.add(tag)]. *)
Definition tags_add (bookmark : models.Bookmark) (tag : string) : M unit :=
  rel <~ gets (fun w => bookmark_tags (db w)) ;;
  if decide ((models.id bookmark, tag) ∈ rel) then ret tt
  else
    modify (set_db (fun dbs =>
      {| bookmark_table := bookmark_table dbs;
         tag_table := tag_table dbs;
         bookmark_tags := {[(models.id bookmark, tag)]} ∪ bookmark_tags dbs |})) ;;;
    emit (Tag_attached (models.id bookmark) tag).

(** [add_embedding_to_index] acting on the store of the world. *)
Definition index_add (bookmark_id : Z) (emb : list Q) : M unit :=
  fun w =>
    match add_embedding_to_index bookmark_id emb (disk w) with
    | Return dk => (Return tt, log (Index_written bookmark_id) (set_disk dk w))
    | Raise => (Raise, w)
    | Abort => (Abort, w)
    end.

(** ** 5. Process one Bookmark *)

(** One of the two extraction loops: [chunks] grows by the text of every
    source whose extraction returns. *)
Fixpoint gather (extract : string -> outcome string) (msg : string)
    (sources : list string) (chunks : list string) : M (list string) :=
  match sources with
  | [] => ret chunks
  | src :: sources' =>
      chunks' <~ try_except
                   (t <~ call (extract src) ;; ret (chunks ++ [t]))
                   (print msg ;;; ret chunks) ;;
      gather extract msg sources' chunks'
  end.

Definition set_text (t : string) (b : models.Bookmark) : models.Bookmark :=
  {| models.id := models.id b; models.text := t;
     models.embedding := models.embedding b;
     models.links := models.links b; models.files := models.files b |}.

Definition set_embedding (e : option (list Q)) (b : models.Bookmark) : models.Bookmark :=
  {| models.id := models.id b; models.text := models.text b;
     models.embedding := e;
     models.links := models.links b; models.files := models.files b |}.

(** Lines 147-163: the text of all sources. *)
Definition gather_text (env : Env) (bookmark : models.Bookmark) : M string :=
  chunks <~ gather (extract_text_from_url env) "URL extraction failed:"
              (models.links bookmark) [] ;;
  chunks <~ gather (extract_text_from_file env) "File extraction failed:"
              (models.files bookmark) chunks ;;
  ret (strip (join newline chunks)).

(** Lines 166-172. *)
Definition embedding_stage (env : Env) (full_text : string)
    (bookmark : models.Bookmark) : M models.Bookmark :=
  if nonempty full_text then
    try_except
      (emb <~ generate_embedding env full_text ;;
       ret (set_embedding (Some emb) bookmark))
      (print "Embedding failed:" ;;; ret (set_embedding None bookmark))
  else ret bookmark.

Fixpoint attach_labels (bookmark : models.Bookmark) (lbls : list string) : M unit :=
  match lbls with
  | [] => ret tt
  | lbl :: lbls' =>
      tag <~ get_or_create lbl ;;
      tags_add bookmark tag ;;;
      attach_labels bookmark lbls'
  end.

(** Lines 176-183. *)
Definition tagging_stage (env : Env) (full_text : string)
    (bookmark : models.Bookmark) : M unit :=
  if nonempty full_text then
    try_except
      (lbls <~ auto_tag env full_text None default_threshold ;;
       attach_labels bookmark lbls)
      (print "Auto-tagging failed:")
  else ret tt.

(** Lines 185-190. *)
Definition faiss_stage (bookmark : models.Bookmark) : M unit :=
  match models.embedding bookmark with
  | Some (x :: emb) =>
      try_except (index_add (models.id bookmark) (x :: emb))
                 (print "FAISS update failed:")
  | _ => ret tt
  end.

Definition process_bookmark (env : Env) (bookmark : models.Bookmark)
    : M models.Bookmark :=
  full_text <~ gather_text env bookmark ;;
  let bookmark := set_text full_text bookmark in
  bookmark <~ embedding_stage env full_text bookmark ;;
  save bookmark ;;;
  tagging_stage env full_text bookmark ;;;
  faiss_stage bookmark ;;;
  ret bookmark.

(** ** Observing a run *)

(** The events a run added to the trace. *)
Definition new_events (w w' : World) : list Event :=
  drop (length (trace w)) (trace w').

Definition embedder_calls (evs : list Event) : list string :=
  omap (fun e => match e with Embedder_called t => Some t | _ => None end) evs.

Definition tagger_calls (evs : list Event) : list string :=
  omap (fun e => match e with Tagger_called t => Some t | _ => None end) evs.

Definition is_print (e : Event) : Prop :=
  match e with Printed _ => True | _ => False end.

(** Writes to the database or to the files of the vector store. *)
Definition is_write (e : Event) : Prop :=
  match e with
  | Bookmark_saved _ _ | Tag_created _ | Tag_attached _ _ | Index_written _ => True
  | _ => False
  end.

Definition is_save (e : Event) : Prop :=
  match e with Bookmark_saved _ _ => True | _ => False end.

Definition is_index_event (e : Event) : Prop :=
  match e with Index_written _ | Printed _ => True | _ => False end.

Definition is_tag_write (e : Event) : Prop :=
  match e with Tag_created _ | Tag_attached _ _ => True | _ => False end.

(** What is stored for one document: its row and its tags. *)
Definition persisted (doc : Z) (w : World)
    : option BookmarkRow * gset (Z * string) :=
  (bookmark_table (db w) !! doc,
   filter (fun r => r.1 = doc) (bookmark_tags (db w))).

(** The trace grew by events that all satisfy [P]. *)
Definition steps (P : Event -> Prop) (w w' : World) : Prop :=
  ∃ new : list Event, trace w' = trace w ++ new ∧ Forall P new.

(** The model a call of [generate_embedding] uses in world [w]: the cached
    one, else the one loaded now. *)
Definition model_in_use (env : Env) (w : World) : outcome encoder :=
  match _model w with
  | Some m => Return m
  | None => SentenceTransformer env
  end.

(** The classifier a call of [auto_tag] uses in world [w]: the cached one,
    else the one loaded now. *)
Definition classifier_in_use (env : Env) (w : World) : outcome classifier :=
  match _clf w with
  | Some c => Return c
  | None => pipeline env
  end.

(** The labels the tagging stage obtains in world [w]: those of the
    classifier at or above the threshold, none when there is no text or
    the classifier fails. *)
Definition stage_labels (env : Env) (full_text : string) (w : World) : list string :=
  if nonempty full_text then
    match (auto_tag env full_text None default_threshold w).1 with
    | Return lbls => lbls
    | _ => []
    end
  else [].

(** The relation rows attaching [lbls] to document [doc]. *)
Definition tag_rows (doc : Z) (lbls : list string) : gset (Z * string) :=
  list_to_set ((fun lbl => (doc, lbl)) <$> lbls).

(** Same database and same vector store. *)
Definition same_stores (w w' : World) : Prop :=
  db w' = db w ∧ disk w' = disk w.

(** ** Sample collaborators *)

Definition empty_db : Database :=
  {| bookmark_table := ∅; tag_table := ∅; bookmark_tags := ∅ |}.

Definition initial_world (dbs : Database) (dk : Disk) : World :=
  {| db := dbs; disk := dk; _model := None; _clf := None; trace := [] |}.

(** An encoder giving the same 384 components for every text. *)
Definition constant_encoder : encoder :=
  fun _ => Return (replicate 384 (1 # 2)%Q).

Definition sample_classifier : classifier :=
  fun _ _ => Return (["python"; "ai"; "paper"]%string,
                     [(9 # 10)%Q; (1 # 2)%Q; (1 # 10)%Q]).

Definition env_ok : Env :=
  {| extract_text_from_url := fun _ => Return "hello"%string;
     extract_text_from_file := fun _ => Return "world"%string;
     SentenceTransformer := Return constant_encoder;
     pipeline := Return sample_classifier |}.

(** The embedding model cannot be loaded. *)
Definition env_embedder_down : Env :=
  {| extract_text_from_url := fun _ => Return "hello"%string;
     extract_text_from_file := fun _ => Return "world"%string;
     SentenceTransformer := Raise;
     pipeline := Return sample_classifier |}.

(** The run is interrupted while the classifier loads. *)
Definition env_interrupted_tagging : Env :=
  {| extract_text_from_url := fun _ => Return "hello"%string;
     extract_text_from_file := fun _ => Return "world"%string;
     SentenceTransformer := Return constant_encoder;
     pipeline := Abort |}.

(** No source can be extracted. *)
Definition env_sources_down : Env :=
  {| extract_text_from_url := fun _ => Raise;
     extract_text_from_file := fun _ => Raise;
     SentenceTransformer := Return constant_encoder;
     pipeline := Return sample_classifier |}.

Definition new_bookmark : models.Bookmark :=
  {| models.id := 5; models.text := ""; models.embedding := None;
     models.links := ["http://a"%string]; models.files := [] |}.

(** A bookmark processed before: text and a two-component embedding are
    stored, as [bookmark_edit] reloads them. *)
Definition processed_bookmark : models.Bookmark :=
  {| models.id := 5; models.text := "old text";
     models.embedding := Some [1%Q; 0%Q];
     models.links := ["http://a"%string]; models.files := [] |}.

Definition processed_world : World :=
  initial_world
    {| bookmark_table :=
         {[ 5 := {| row_text := "old text"; row_embedding := Some [1%Q; 0%Q] |} ]};
       tag_table := ∅; bookmark_tags := ∅ |}
    (add_all [(5, [1%Q; 0%Q])] fresh_disk).

(** ** Further observations of the store and of the pipeline *)




(** The toy index of the specification. *)
Definition toy_store : Disk :=
  add_all [(1, [1%Q; 0%Q]); (2, [0%Q; 1%Q])] fresh_disk.

(** An index file whose mapping file is gone. *)
Definition unmapped_store : Disk :=
  {| FAISS_INDEX_FILE := FAISS_INDEX_FILE toy_store; VECTOR_MAP_FILE := None |}.

(** A mapping file whose index file is gone. *)
Definition unindexed_store : Disk :=
  {| FAISS_INDEX_FILE := None; VECTOR_MAP_FILE := VECTOR_MAP_FILE toy_store |}.

(** The texts of the sources whose extraction returns, in order. *)
Definition extracted (extract : string -> outcome string) (sources : list string)
    : list string :=
  omap (fun src => match extract src with Return t => Some t | _ => None end) sources.

(** Only whitespace, or nothing at all. *)
Fixpoint blank (s : string) : bool :=
  match s with
  | EmptyString => true
  | String c s' => isspace c && blank s'
  end.

(** One reachable and one unreachable link. *)
Definition env_one_link_down : Env :=
  {| extract_text_from_url :=
       fun url => if String.eqb url "http://a" then Return "  hello "%string else Raise;
     extract_text_from_file := fun _ => Return "world"%string;
     SentenceTransformer := Return constant_encoder;
     pipeline := Return sample_classifier |}.

Definition two_link_bookmark : models.Bookmark :=
  {| models.id := 5; models.text := ""; models.embedding := None;
     models.links := ["http://down"; "http://a"]%string; models.files := [] |}.

(** Sources that yield whitespace only. *)
Definition env_blank_sources : Env :=
  {| extract_text_from_url := fun _ => Return newline;
     extract_text_from_file := fun _ => Return "  "%string;
     SentenceTransformer := Return constant_encoder;
     pipeline := Return sample_classifier |}.

(** ** 1. Text extraction *)

Module Extractor.

(** *** [re.sub("<[^<]+?>", "", s)] *)

(** After the ["<"] and a first character other than ["<"]: how many
    further characters the shortest match takes, its [">"] included. *)
Fixpoint tag_close (s : string) : option nat :=
  match s with
  | EmptyString => None
  | String c s' =>
      if Ascii.eqb c ">" then Some 1%nat
      else if Ascii.eqb c "<" then None
      else S <$> tag_close s'
  end.

(** The length of the match after its ["<"], when there is a match. *)
Definition tag_length (s : string) : option nat :=
  match s with
  | EmptyString => None
  | String c s' => if Ascii.eqb c "<" then None else S <$> tag_close s'
  end.

(** Left to right, non-overlapping: [skip] characters of a match are still
    to be dropped. *)
Fixpoint sub_tags (skip : nat) (s : string) : string :=
  match s with
  | EmptyString => EmptyString
  | String c s' =>
      match skip with
      | S n => sub_tags n s'
      | O =>
          if Ascii.eqb c "<" then
            match tag_length s' with
            | Some n => sub_tags n s'
            | None => String c (sub_tags 0 s')
            end
          else String c (sub_tags 0 s')
      end
  end.

Definition strip_tags (s : string) : string := sub_tags 0 s.

(** *** [extract_text_from_url] *)

Record Response : Type := { status_code : Z; text : string }.

(** The [requests] package: whether it can be imported, and [get]. *)
Record Requests : Type := {
  requests_installed : bool;
  get : string -> outcome Response
}.

(** [r.raise_for_status()]: an HTTPError for the 4xx and 5xx codes. *)
Definition raise_for_status (r : Response) : outcome unit :=
  if (400 <=? status_code r) && (status_code r <? 600) then Raise else Return tt.

Definition extract_text_from_url (requests : Requests) (url : string)
    : outcome string :=
  if requests_installed requests then
    match get requests url with
    | Return r =>
        match raise_for_status r with
        | Return _ => Return (strip_tags (text r))
        | Raise => Raise
        | Abort => Abort
        end
    | Raise => Raise
    | Abort => Abort
    end
  else Raise.

(** *** [os.path.splitext] (POSIX) and [str.lower] *)

(** [s.rfind(c)], counting from [i]. *)
Fixpoint rfind_from (c : Ascii.ascii) (s : string) (i : nat) : option nat :=
  match s with
  | EmptyString => None
  | String x s' =>
      match rfind_from c s' (S i) with
      | Some j => Some j
      | None => if Ascii.eqb x c then Some i else None
      end
  end.

Definition rfind (c : Ascii.ascii) (s : string) : option nat := rfind_from c s 0.

(** Some character is not a dot: the loop over the leading dots. *)
Fixpoint has_name_char (s : string) : bool :=
  match s with
  | EmptyString => false
  | String x s' => negb (Ascii.eqb x ".") || has_name_char s'
  end.

Definition splitext (p : string) : string * string :=
  match rfind "." p with
  | None => (p, EmptyString)
  | Some dotIndex =>
      let filenameIndex := match rfind "/" p with
                           | Some sepIndex => S sepIndex
                           | None => 0%nat
                           end in
      if (filenameIndex <=? dotIndex)%nat
         && has_name_char (substring filenameIndex (dotIndex - filenameIndex) p)
      then (substring 0 dotIndex p,
            substring dotIndex (String.length p - dotIndex) p)
      else (p, EmptyString)
  end.

Definition lower_char (c : Ascii.ascii) : Ascii.ascii :=
  let n := nat_of_ascii c in
  if ((65 <=? n) && (n <=? 90)
      || (192 <=? n) && (n <=? 222) && negb (n =? 215))%nat
  then ascii_of_nat (n + 32)
  else c.

Fixpoint lower (s : string) : string :=
  match s with
  | EmptyString => EmptyString
  | String c s' => String (lower_char c) (lower s')
  end.

(** *** [extract_text_from_file] *)

(** The optional packages and the files: [pdfminer]'s [extract_text],
    the paragraph texts of [docx.Document], and reading a file as UTF-8
    with undecodable bytes ignored. *)
Record Files : Type := {
  pdfminer_installed : bool;
  pdf_extract_text : string -> outcome string;
  docx_installed : bool;
  docx_paragraphs : string -> outcome (list string);
  read_text : string -> outcome string
}.

Definition extract_text_from_file (files : Files) (file_path : string)
    : outcome string :=
  let ext := lower (snd (splitext file_path)) in
  if String.eqb ext ".pdf" then
    if pdfminer_installed files then pdf_extract_text files file_path else Raise
  else if String.eqb ext ".docx" || String.eqb ext ".doc" then
    if docx_installed files then
      match docx_paragraphs files file_path with
      | Return ps => Return (join newline ps)
      | Raise => Raise
      | Abort => Abort
      end
    else Raise
  else read_text files file_path.

End Extractor.

(** The characters of a string. *)
Definition chars (s : string) : list Ascii.ascii := list_ascii_of_string s.

Definition sample_requests : Extractor.Requests :=
  {| Extractor.requests_installed := true;
     Extractor.get := fun url =>
       if String.eqb url "http://a"
       then Return {| Extractor.status_code := 200;
                      Extractor.text := "<p>one <b>two</b></p> 1 < 2" |}
       else Return {| Extractor.status_code := 404;
                      Extractor.text := "<h1>Not Found</h1>" |} |}.

(** The directory part of a path: empty, or ending in a slash. *)
Definition is_dir_prefix (dir : string) : Prop :=
  dir = EmptyString ∨ ∃ d : string, dir = d +:+ "/".

Definition sample_files : Extractor.Files :=
  {| Extractor.pdfminer_installed := true;
     Extractor.pdf_extract_text := fun _ => Return "pdf text"%string;
     Extractor.docx_installed := false;
     Extractor.docx_paragraphs := fun _ => Return ["one"; "two"]%string;
     Extractor.read_text := fun _ => Return "plain text"%string |}.

(** ** The links field of the upload form *)

Module views.

(** A line boundary of [str.splitlines], among the code points below 256. *)
Definition is_linebreak (c : Ascii.ascii) : bool :=
  let n := nat_of_ascii c in
  ((10 <=? n) && (n <=? 13) || (28 <=? n) && (n <=? 30) || (n =? 133))%nat.

(** Puts [c] in front of the first line. *)
Definition extend_line (c : Ascii.ascii) (lines : list string) : list string :=
  match lines with
  | [] => [String c EmptyString]
  | l :: ls => String c l :: ls
  end.

(** [s.splitlines()]; [after_cr] tells that the previous character was a
    carriage return, whose line feed belongs to the same boundary. *)
Fixpoint splitlines_from (after_cr : bool) (s : string) : list string :=
  match s with
  | EmptyString => []
  | String c s' =>
      if after_cr && Ascii.eqb c (ascii_of_nat 10) then splitlines_from false s'
      else if is_linebreak c
           then EmptyString :: splitlines_from (Ascii.eqb c (ascii_of_nat 13)) s'
           else extend_line c (splitlines_from false s')
  end.

Definition splitlines (s : string) : list string := splitlines_from false s.

(** Lines 47-51 of [upload_bookmark]: the urls for which a [BookmarkLink]
    is created, in order. *)
Definition urls_of_links_field (links : string) : list string :=
  if nonempty links then splitlines (strip links) else [].

(** *** [collect_category_ids] of [category_detail] *)

(** The rows of the Category table, (id, parent id), in query order. *)
Definition children (table : list (Z * option Z)) (category : Z) : list Z :=
  (filter (fun row : Z * option Z => row.2 = Some category) table).*1.

(** [category_ids.extend(collect(child))] for each child in turn. *)
Fixpoint extend_with (collect : Z -> outcome (list Z)) (kids : list Z)
    : outcome (list Z) :=
  match kids with
  | [] => Return []
  | child :: kids' =>
      match collect child with
      | Return ids =>
          match extend_with collect kids' with
          | Return more => Return (ids ++ more)
          | Raise => Raise
          | Abort => Abort
          end
      | Raise => Raise
      | Abort => Abort
      end
  end.

(** [depth] is the number of frames the interpreter still allows; with
    none left the call raises RecursionError. *)
Fixpoint collect_category_ids (depth : nat) (table : list (Z * option Z))
    (category : Z) : outcome (list Z) :=
  match depth with
  | O => Raise
  | S depth' =>
      match extend_with (collect_category_ids depth' table) (children table category) with
      | Return ids => Return (category :: ids)
      | Raise => Raise
      | Abort => Abort
      end
  end.

End views.

(** The last character, if any, is no line boundary. *)
Fixpoint no_trailing_break (s : string) : Prop :=
  match s with
  | EmptyString => True
  | String c EmptyString => views.is_linebreak c = false
  | String _ s' => no_trailing_break s'
  end.

(** [x] is below [c] in the table: a child, or below a child. *)
Inductive descends (table : list (Z * option Z)) : Z -> Z -> Prop :=
| descends_child (c k : Z) :
    k ∈ views.children table c -> descends table c k
| descends_step (c k x : Z) :
    k ∈ views.children table c -> descends table k x -> descends table c x.

(** From [c] one reaches a category that is below itself. *)
Definition reaches_cycle (table : list (Z * option Z)) (c : Z) : Prop :=
  ∃ y : Z, (c = y ∨ descends table c y) ∧ descends table y y.

Definition sample_categories : list (Z * option Z) :=
  [(1, None); (2, Some 1); (3, Some 1); (4, Some 2); (5, Some 5)].

(** * Properties *)

(** ** The store after a sequence of adds *)

Lemma str_inj (i j : Z) : str i = str j → i = j.
Proof. unfold str. apply (inj pretty). Qed.

Lemma add_embedding_to_index_Return bookmark_id emb disk disk' :
  add_embedding_to_index bookmark_id emb disk = Return disk' →
  stored disk' = stored disk ++ [emb] ∧
  mapping disk' = <[str (Z.of_nat (disk_ntotal disk)) := bookmark_id]> (mapping disk).
Proof.
  unfold add_embedding_to_index, stored, disk_ntotal, stored, mapping, _load_faiss,
    Faiss.add, Faiss.ntotal.
  destruct disk as [[index|] vm]; simpl; case_decide; intros Hr; simplify_eq; done.
Qed.

Lemma add_embedding_to_index_no_Abort bookmark_id emb disk :
  add_embedding_to_index bookmark_id emb disk ≠ Abort.
Proof.
  unfold add_embedding_to_index, _load_faiss, Faiss.add.
  destruct disk as [[index|] vm]; simpl; case_decide; done.
Qed.

(** The store holds the accepted calls: vectors in order, ids by position. *)
Lemma add_all_stored calls disk :
  stored (add_all calls disk) = stored disk ++ (accepted calls disk).*2.
Proof.
  revert disk. induction calls as [|c calls IH]; intros disk; simpl.
  - by rewrite app_nil_r.
  - unfold add_all in *. simpl. unfold guarded_add at 2.
    destruct (add_embedding_to_index c.1 c.2 disk) as [disk'| |] eqn:E.
    + rewrite IH. apply add_embedding_to_index_Return in E as [-> _].
      by rewrite <- app_assoc.
    + apply IH.
    + apply IH.
Qed.

Lemma add_all_ntotal calls disk :
  disk_ntotal (add_all calls disk) = (disk_ntotal disk + successes calls disk)%nat.
Proof.
  unfold disk_ntotal, successes. rewrite add_all_stored.
  by rewrite length_app, length_fmap.
Qed.

Lemma add_all_app calls1 calls2 disk :
  add_all (calls1 ++ calls2) disk = add_all calls2 (add_all calls1 disk).
Proof. unfold add_all. apply foldl_app. Qed.

Lemma accepted_app calls1 calls2 disk :
  accepted (calls1 ++ calls2) disk =
  accepted calls1 disk ++ accepted calls2 (add_all calls1 disk).
Proof.
  revert disk. induction calls1 as [|c calls1 IH]; intros disk; [done|].
  change (add_all (c :: calls1) disk) with (add_all calls1 (guarded_add disk c)).
  simpl. unfold guarded_add.
  destruct (add_embedding_to_index c.1 c.2 disk) as [disk'| |];
    simpl; by rewrite IH.
Qed.

Lemma add_all_fresh_ntotal calls :
  disk_ntotal (add_all calls fresh_disk) = length (accepted calls fresh_disk).
Proof. by rewrite add_all_ntotal. Qed.

Lemma add_all_fresh_mapping calls (p : nat) :
  mapping (add_all calls fresh_disk) !! str (Z.of_nat p) =
  fst <$> accepted calls fresh_disk !! p.
Proof.
  revert p. induction calls as [|c calls IH] using rev_ind; intros p; [done|].
  rewrite add_all_app, accepted_app.
  change (add_all [c] ?D) with (guarded_add D c).
  cbn [accepted]. unfold guarded_add.
  destruct (add_embedding_to_index c.1 c.2 _) as [disk'| |] eqn:E;
    [|by rewrite app_nil_r..].
  apply add_embedding_to_index_Return in E as [_ ->].
  rewrite add_all_fresh_ntotal.
  destruct (decide (p = length (accepted calls fresh_disk))) as [->|Hne].
  - rewrite lookup_insert_eq. by rewrite list_lookup_middle.
  - rewrite lookup_insert_ne.
    2:{ intros HH%str_inj%Nat2Z.inj. congruence. }
    rewrite IH. destruct (decide (p < length (accepted calls fresh_disk))%nat).
    + by rewrite lookup_app_l.
    + rewrite (lookup_ge_None_2 (accepted calls fresh_disk)) by lia.
      rewrite lookup_ge_None_2; [done|].
      rewrite length_app. simpl. lia.
Qed.

(** ** Position assignment *)

(** C2. On a fresh index the n-th add that returns gives its vector
    position n-1, the vector count just before it, whatever calls failed
    in between: if [n-1] of the earlier calls returned, the index holds
    [n-1] vectors before the call and afterwards the mapping has the
    document id under [str(n-1)], the vector sits at position [n-1], and
    the count is [n]. *)
Theorem nth_add_gets_position (earlier : list (Z * list Q)) (bookmark_id : Z)
    (emb : list Q) (n : nat) (disk' : Disk) :
  S (successes earlier fresh_disk) = n →
  add_embedding_to_index bookmark_id emb (add_all earlier fresh_disk) = Return disk' →
  disk_ntotal (add_all earlier fresh_disk) = (n - 1)%nat ∧
  mapping disk' !! str (Z.of_nat (n - 1)) = Some bookmark_id ∧
  stored disk' !! (n - 1)%nat = Some emb ∧
  disk_ntotal disk' = n.
Proof.
  intros <- E. apply add_embedding_to_index_Return in E as [Hs Hm].
  assert (Hn : disk_ntotal (add_all earlier fresh_disk) = successes earlier fresh_disk)
    by apply add_all_fresh_ntotal.
  replace (S (successes earlier fresh_disk) - 1)%nat
    with (successes earlier fresh_disk) by lia.
  repeat split.
  - done.
  - rewrite Hm, Hn. apply lookup_insert_eq.
  - rewrite Hs. rewrite <- Hn. unfold disk_ntotal. apply list_lookup_middle. done.
  - unfold disk_ntotal at 1. rewrite Hs, length_app. simpl.
    fold (disk_ntotal (add_all earlier fresh_disk)). lia.
Qed.

(** Two failed attempts (wrong dimension) between three adds that return. *)
Lemma nth_add_gets_position_witness :
  let earlier := [(10, [1%Q; 0%Q]); (11, [1%Q]); (12, [0%Q; 1%Q]); (13, [])] in
  ∃ disk',
    add_embedding_to_index 14 [1%Q; 1%Q] (add_all earlier fresh_disk) = Return disk' ∧
    disk_ntotal (add_all earlier fresh_disk) = 2%nat ∧
    mapping disk' !! str 2 = Some 14 ∧
    stored disk' !! 2%nat = Some [1%Q; 1%Q] ∧
    disk_ntotal disk' = 3%nat.
Proof.
  eexists. split; [vm_compute; reflexivity|].
  apply (nth_add_gets_position
           [(10, [1%Q; 0%Q]); (11, [1%Q]); (12, [0%Q; 1%Q]); (13, [])]
           14 [1%Q; 1%Q] 3); vm_compute; reflexivity.
Defined.

(** ** The mapping against the index *)

Lemma fresh_disk_tracks : mapping_tracks_index fresh_disk.
Proof.
  split; [done|]. intros key. unfold mapping, disk_ntotal. simpl. split.
  - rewrite lookup_empty. by intros [? ?].
  - intros (p & Hp & _). lia.
Qed.

Lemma tracked_position_free disk :
  mapping_tracks_index disk →
  mapping disk !! str (Z.of_nat (disk_ntotal disk)) = None.
Proof.
  intros [_ Hdom]. apply eq_None_not_Some. intros (p & Hp & Heq)%Hdom.
  apply str_inj, Nat2Z.inj in Heq. lia.
Qed.

Lemma add_keeps_tracking bookmark_id emb disk disk' :
  mapping_tracks_index disk →
  add_embedding_to_index bookmark_id emb disk = Return disk' →
  mapping_tracks_index disk'.
Proof.
  intros Htr E. pose proof (tracked_position_free _ Htr) as Hfree.
  destruct Htr as [Hsize Hdom].
  apply add_embedding_to_index_Return in E as [Hs Hm].
  assert (Hn : disk_ntotal disk' = S (disk_ntotal disk)).
  { unfold disk_ntotal at 1. rewrite Hs, length_app. simpl.
    fold (disk_ntotal disk). lia. }
  split.
  - rewrite Hm, Hn, map_size_insert_None by done. by rewrite Hsize.
  - intros key. rewrite Hm, Hn, lookup_insert_is_Some, Hdom. split.
    + intros [<-|[_ (p & Hp & ->)]].
      * exists (disk_ntotal disk). split; [lia|done].
      * exists p. split; [lia|done].
    + intros (p & Hp & ->).
      destruct (decide (p = disk_ntotal disk)) as [->|Hne]; [by left|].
      right. split.
      * intros Heq%str_inj%Nat2Z.inj. congruence.
      * exists p. split; [lia|done].
Qed.

Lemma add_all_tracks calls disk :
  mapping_tracks_index disk → mapping_tracks_index (add_all calls disk).
Proof.
  revert disk. induction calls as [|c calls IH]; intros disk Htr; [done|].
  change (add_all (c :: calls) disk) with (add_all calls (guarded_add disk c)).
  apply IH. unfold guarded_add.
  destruct (add_embedding_to_index c.1 c.2 disk) eqn:E; [|done..].
  by eapply add_keeps_tracking.
Qed.

(** C4, as the code has it. The mapping of a fresh store tracks the index
    (exactly [ntotal] entries, keyed by the positions below [ntotal]);
    every add that returns keeps this, keeps every earlier entry, and
    records its document id under the new position whether or not that id
    is already recorded elsewhere; so every store reached by adds tracks
    its index. *)
Theorem adds_keep_mapping_tracking :
  mapping_tracks_index fresh_disk ∧
  (∀ (bookmark_id : Z) (emb : list Q) (disk disk' : Disk),
     mapping_tracks_index disk →
     add_embedding_to_index bookmark_id emb disk = Return disk' →
     mapping_tracks_index disk' ∧
     disk_ntotal disk' = S (disk_ntotal disk) ∧
     mapping disk' !! str (Z.of_nat (disk_ntotal disk)) = Some bookmark_id ∧
     ∀ p : nat, (p < disk_ntotal disk)%nat →
       mapping disk' !! str (Z.of_nat p) = mapping disk !! str (Z.of_nat p)) ∧
  (∀ calls : list (Z * list Q), mapping_tracks_index (add_all calls fresh_disk)).
Proof.
  split; [apply fresh_disk_tracks|]. split.
  - intros bookmark_id emb disk disk' Htr E. split; [by eapply add_keeps_tracking|].
    apply add_embedding_to_index_Return in E as [Hs Hm]. repeat split.
    + unfold disk_ntotal at 1. rewrite Hs, length_app. simpl.
      fold (disk_ntotal disk). lia.
    + rewrite Hm. apply lookup_insert_eq.
    + intros p Hp. rewrite Hm. apply lookup_insert_ne.
      intros Heq%str_inj%Nat2Z.inj. lia.
  - intros calls. apply add_all_tracks, fresh_disk_tracks.
Qed.

Lemma adds_keep_mapping_tracking_witness :
  mapping_tracks_index twice_indexed ∧
  mapping twice_indexed !! str 0 = Some 7 ∧
  mapping twice_indexed !! str 1 = Some 7.
Proof.
  destruct adds_keep_mapping_tracking as (_ & Hstep & _).
  destruct (Hstep 7 [1%Q; 0%Q] (add_all [(7, [1%Q; 0%Q])] fresh_disk) twice_indexed)
    as (Htr & _ & Hnew & Hold).
  - apply add_all_tracks, fresh_disk_tracks.
  - vm_compute. reflexivity.
  - split; [exact Htr|]. split; [|exact Hnew].
    change (str 0) with (str (Z.of_nat 0%nat)).
    rewrite (Hold 0%nat); [vm_compute; reflexivity | vm_compute; lia].
Defined.

(** C4, as stated, fails: a store satisfying the stated invariant, and an
    add of a document already indexed (what [bookmark_edit] causes by
    running [process_bookmark] again), after which the id sits at two
    positions. *)
Lemma reindexing_repeats_document_id :
  let once := add_all [(7, [1%Q; 0%Q])] fresh_disk in
  (mapping_tracks_index once ∧ one_position_per_id once) ∧
  add_embedding_to_index 7 [1%Q; 0%Q] once = Return twice_indexed ∧
  ¬ (mapping_tracks_index twice_indexed ∧ one_position_per_id twice_indexed).
Proof.
  intros once. split; [split|split].
  - apply add_all_tracks, fresh_disk_tracks.
  - intros p1 p2 doc H1 H2.
    assert (Hz : ∀ p : nat, is_Some (mapping (add_all [(7, [1%Q; 0%Q])] fresh_disk)
                               !! str (Z.of_nat p)) → p = 0%nat).
    { intros p Hp. rewrite add_all_fresh_mapping in Hp.
      destruct p as [|p]; [done|]. destruct p; by destruct Hp. }
    rewrite (Hz p1), (Hz p2); eauto.
  - vm_compute. reflexivity.
  - intros [_ Hone]. specialize (Hone 0%nat 1%nat 7).
    assert (0 = 1)%nat; [|lia]. apply Hone; vm_compute; reflexivity.
Qed.

(** ** Persisting and reloading *)

Lemma load_save_some index vec_map target :
  _load_faiss (_save_faiss (Some index) vec_map target) = (Some index, vec_map).
Proof. reflexivity. Qed.



(** ** Ranking by distance *)




Lemma insert_candidate_perm c l : Faiss.insert_candidate c l ≡ₚ c :: l.
Proof.
  induction l as [|c' l IH]; simpl; [done|].
  destruct (Qle_bool c.2 c'.2); [done|]. rewrite IH. apply Permutation_swap.
Qed.

Lemma rank_perm cs : Faiss.rank cs ≡ₚ cs.
Proof.
  induction cs as [|c cs IH]; simpl; [done|].
  rewrite insert_candidate_perm. by rewrite IH.
Qed.



Lemma candidates_length index q :
  length (Faiss.candidates index q) = Faiss.ntotal index.
Proof.
  unfold Faiss.candidates, Faiss.ntotal.
  rewrite length_zip_with, length_seq, length_map. lia.
Qed.

Lemma candidates_lookup index q (p : nat) :
  Faiss.candidates index q !! p =
  (fun v => (p, Faiss.fvec_L2sqr q v)) <$> Faiss.xb index !! p.
Proof.
  unfold Faiss.candidates, Faiss.ntotal.
  destruct (Faiss.xb index !! p) as [v|] eqn:E; simpl.
  - apply lookup_zip_with_Some. exists p, (Faiss.fvec_L2sqr q v).
    split; [done|]. split.
    + apply lookup_seq. split; [done|]. by eapply lookup_lt_Some.
    + change (map ?f ?l) with (f <$> l). by rewrite list_lookup_fmap, E.
  - apply lookup_ge_None. rewrite length_zip_with, length_seq, length_map.
    apply lookup_ge_None in E. lia.
Qed.

Lemma elem_of_candidates index q c :
  c ∈ Faiss.candidates index q ↔
  ∃ v, Faiss.xb index !! c.1 = Some v ∧ c.2 = Faiss.fvec_L2sqr q v.
Proof.
  rewrite list_elem_of_lookup. split.
  - intros [p Hp]. rewrite candidates_lookup in Hp.
    destruct (Faiss.xb index !! p) as [v|] eqn:E; [|done].
    simpl in Hp. simplify_eq. by exists v.
  - intros (v & Hv & Hd). exists c.1. rewrite candidates_lookup, Hv. simpl.
    destruct c; simpl in *. by subst.
Qed.

Lemma rank_length cs : length (Faiss.rank cs) = length cs.
Proof. by rewrite rank_perm. Qed.

(** With [k] at most [ntotal] there is no padding. *)
Lemma knn_no_padding index q (k : nat) :
  (k ≤ Faiss.ntotal index)%nat →
  Faiss.knn index q k =
  (fun c => Z.of_nat c.1) <$> take k (Faiss.rank (Faiss.candidates index q)).
Proof.
  intros Hk. unfold Faiss.knn.
  rewrite length_take_le by (rewrite rank_length, candidates_length; lia).
  rewrite Nat.sub_diag. simpl. by rewrite app_nil_r.
Qed.

(** ** Search *)

Lemma omap_length_le {A B} (f : A → option B) (l : list A) :
  (length (omap f l) ≤ length l)%nat.
Proof.
  induction l as [|a l IH]; csimpl; [done|]. destruct (f a); csimpl; lia.
Qed.

Lemma search_embeddings_unfold q k index vm :
  Faiss.ntotal index ≠ 0%nat →
  length q = Faiss.d index →
  0 < k →
  search_embeddings q k {| FAISS_INDEX_FILE := Some index; VECTOR_MAP_FILE := vm |} =
  Return (omap (fun i => default ∅ vm !! str i)
            ((fun c => Z.of_nat c.1) <$>
               take (Z.to_nat (Z.min k (Z.of_nat (Faiss.ntotal index))))
                    (Faiss.rank (Faiss.candidates index q)))).
Proof.
  intros Hn Hq Hk. unfold search_embeddings, search_loaded, _load_faiss. simpl.
  rewrite decide_False by done. unfold Faiss.search.
  rewrite decide_True by done. rewrite decide_True by lia.
  rewrite knn_no_padding by lia. by destruct vm.
Qed.

(** C3. Whenever [search_embeddings] returns, it returns at most
    [min(k, ntotal)] ids (a [k] below zero counting as zero), each of them
    the mapping's entry for a position of the index; with no index, or an
    index of zero vectors, it returns the empty list; and with an index,
    a query of its dimension and a positive [k] it always returns, giving
    the mapped ids of the nearest positions in order and dropping the
    positions the mapping lacks. *)
Theorem search_bounded_and_mapped (q : list Q) (k : Z) (disk : Disk) :
  (∀ ids : list Z, search_embeddings q k disk = Return ids →
     (length ids ≤ Z.to_nat (Z.min k (Z.of_nat (disk_ntotal disk))))%nat ∧
     ∀ doc : Z, doc ∈ ids →
       ∃ p : nat, (p < disk_ntotal disk)%nat ∧
                  mapping disk !! str (Z.of_nat p) = Some doc) ∧
  (FAISS_INDEX_FILE disk = None ∨ disk_ntotal disk = 0%nat →
     search_embeddings q k disk = Return []) ∧
  (∀ index : Faiss.IndexFlatL2,
     FAISS_INDEX_FILE disk = Some index → length q = Faiss.d index → 0 < k →
     search_embeddings q k disk =
     Return (omap (fun i => mapping disk !! str i)
               (Faiss.knn index q
                  (Z.to_nat (Z.min k (Z.of_nat (Faiss.ntotal index))))))).
Proof.
  destruct disk as [[index|] vm]; cycle 1.
  { split; [|split]; [|done..]. intros ids [= <-]. split; [simpl; lia|].
    by intros doc ?%elem_of_nil. }
  destruct (decide (Faiss.ntotal index = 0%nat)) as [Hz|Hnz].
  { assert (E : ∀ kk, search_embeddings q kk {|
        FAISS_INDEX_FILE := Some index; VECTOR_MAP_FILE := vm |} = Return []).
    { intros kk. unfold search_embeddings, search_loaded, _load_faiss. simpl.
      by rewrite decide_True. }
    split; [|split].
    - rewrite E. intros ids [= <-]. split; [simpl; lia|].
      by intros doc ?%elem_of_nil.
    - intros _. apply E.
    - intros index' [= <-] Hq Hk. rewrite E, Hz.
      replace (Z.min k (Z.of_nat 0)) with 0 by lia. reflexivity. }
  split; [|split].
  - intros ids. unfold search_embeddings, search_loaded, _load_faiss. simpl.
    rewrite decide_False by done. unfold Faiss.search.
    case_decide; [|done]. case_decide; [|done]. intros [= <-].
    change (disk_ntotal _) with (Faiss.ntotal index).
    rewrite knn_no_padding by lia. split.
    + etrans; [apply omap_length_le|]. rewrite length_fmap, length_take. lia.
    + intros doc (i & Hi & Hdoc)%list_elem_of_omap.
      apply list_elem_of_fmap in Hi as (c & -> & Hc).
      apply subseteq_take in Hc. rewrite rank_perm in Hc.
      apply elem_of_candidates in Hc as (v & Hv & _).
      exists c.1. split; [|done]. by eapply lookup_lt_Some.
  - intros [?|Hz]; [done|]. by destruct Hnz.
  - intros index' [= <-] Hq Hk.
    rewrite search_embeddings_unfold by done.
    rewrite knn_no_padding by lia. by destruct vm.
Qed.

Lemma search_bounded_and_mapped_witness :
  search_embeddings [0%Q; 0%Q] 5 twice_indexed = Return [7; 7] ∧
  search_embeddings [0%Q; 0%Q] 5 fresh_disk = Return [] ∧
  (length [7; 7] ≤ Z.to_nat (Z.min 5 (Z.of_nat (disk_ntotal twice_indexed))))%nat.
Proof.
  destruct (search_bounded_and_mapped [0%Q; 0%Q] 5 twice_indexed) as (Hb & _ & Hr).
  destruct (search_bounded_and_mapped [0%Q; 0%Q] 5 fresh_disk) as (_ & He & _).
  assert (E : search_embeddings [0%Q; 0%Q] 5 twice_indexed = Return [7; 7]).
  { erewrite Hr; [| vm_compute; reflexivity | reflexivity | lia].
    vm_compute. reflexivity. }
  split; [exact E|]. split; [apply He; by left|].
  apply (Hb [7; 7] E).
Defined.









(** The toy index of the specification. *)
Example toy_nearest :
  search_embeddings [(9 # 10)%Q; (1 # 10)%Q] 1
    (add_all [(1, [1%Q; 0%Q]); (2, [0%Q; 1%Q])] fresh_disk) = Return [1].
Proof. vm_compute. reflexivity. Qed.

Example toy_equidistant :
  search_embeddings [0%Q; 0%Q] 2
    (add_all [(1, [1%Q; 0%Q]); (2, [0%Q; 1%Q])] fresh_disk) = Return [1; 2].
Proof. vm_compute. reflexivity. Qed.

(** With [k = 1] and two documents sharing a vector, only the first of
    them is returned. *)
Example tie_returns_first :
  search_embeddings [1%Q; 0%Q] 1
    (add_all [(1, [1%Q; 0%Q]); (2, [1%Q; 0%Q])] fresh_disk) = Return [1].
Proof. vm_compute. reflexivity. Qed.

(** ** Runs of the pipeline on samples *)

Example sample_run :
  let r := process_bookmark env_ok new_bookmark (initial_world empty_db fresh_disk) in
  persisted 5 r.2 =
    (Some {| row_text := "hello"; row_embedding := Some (replicate 384 (1 # 2)%Q) |},
     {[ (5, "python"%string); (5, "ai"%string) ]}) ∧
  embedder_calls (trace r.2) = ["hello"%string] ∧
  tagger_calls (trace r.2) = ["hello"%string] ∧
  disk_ntotal (disk r.2) = 1%nat.
Proof. intros r. split; [|split; [|split]]; vm_compute; reflexivity. Qed.

(** ** The stages one by one *)

Lemma steps_refl P w : steps P w w.
Proof. exists []. by rewrite app_nil_r. Qed.

Lemma steps_trans P w1 w2 w3 : steps P w1 w2 → steps P w2 w3 → steps P w1 w3.
Proof.
  intros (n1 & E1 & F1) (n2 & E2 & F2). exists (n1 ++ n2). split.
  - by rewrite E2, E1, app_assoc.
  - by apply Forall_app.
Qed.

Lemma steps_log (P : Event → Prop) e w : P e → steps P w (log e w).
Proof. intros He. exists [e]. split; [done|]. by apply Forall_singleton. Qed.

Lemma steps_prefix (P : Event → Prop) evs w w1 w2 :
  trace w1 = trace w ++ evs → Forall P evs → steps P w1 w2 → steps P w w2.
Proof.
  intros E F Hst. eapply steps_trans; [|exact Hst]. by exists evs.
Qed.

(** Closes [Forall P evs] for an explicit list and a [P] that computes. *)
Ltac forall_events :=
  repeat first [apply Forall_nil_2 | apply Forall_cons_2; [simpl; tauto|]].

Lemma steps_logged (P : Event → Prop) e w w' :
  trace w' = trace w ++ [e] → P e → steps P w w'.
Proof. intros E He. exists [e]. split; [done|]. by apply Forall_singleton. Qed.

Lemma new_events_app w w' new : trace w' = trace w ++ new → new_events w w' = new.
Proof. unfold new_events. intros ->. by rewrite drop_app_length. Qed.

Lemma gather_shape extract msg sources chunks w :
  same_stores w (gather extract msg sources chunks w).2 ∧
  steps is_print w (gather extract msg sources chunks w).2 ∧
  (gather extract msg sources chunks w).1 ≠ Raise.
Proof.
  revert chunks w. induction sources as [|src sources IH]; intros chunks w.
  { simpl. split; [done|]. split; [apply steps_refl|done]. }
  simpl. unfold bind, try_except, call, ret, print, emit, modify. simpl.
  destruct (extract src) as [t| |]; simpl.
  - apply IH.
  - destruct (IH chunks (log (Printed msg) w)) as ((Hdb & Hdk) & Hst & Hr).
    split; [done|]. split; [|done].
    eapply steps_trans; [|exact Hst]. by apply steps_log.
  - split; [done|]. split; [apply steps_refl|done].
Qed.

Lemma gather_text_shape env bookmark w :
  same_stores w (gather_text env bookmark w).2 ∧
  steps is_print w (gather_text env bookmark w).2 ∧
  (gather_text env bookmark w).1 ≠ Raise.
Proof.
  unfold gather_text, bind.
  pose proof (gather_shape (extract_text_from_url env) "URL extraction failed:"
                (models.links bookmark) [] w) as (S1 & T1 & R1).
  destruct (gather _ _ (models.links bookmark) [] w) as [[chunks| |] w1];
    [|done..]. simpl in S1, T1.
  pose proof (gather_shape (extract_text_from_file env) "File extraction failed:"
                (models.files bookmark) chunks w1) as (S2 & T2 & R2).
  destruct (gather _ _ (models.files bookmark) chunks w1) as [[chunks'| |] w2];
    [|done|]; simpl in *.
  - split; [|split; [|done]].
    + destruct S1, S2. split; congruence.
    + by eapply steps_trans.
  - split; [|split; [|done]].
    + destruct S1, S2. split; congruence.
    + by eapply steps_trans.
Qed.

(** The embedding stage: one call of the embedder when there is text,
    none otherwise; it writes nothing and never raises. *)
Lemma embedding_stage_shape env full_text bookmark w :
  same_stores w (embedding_stage env full_text bookmark w).2 ∧
  (∃ prints,
     trace (embedding_stage env full_text bookmark w).2 =
       trace w ++ (if nonempty full_text then [Embedder_called full_text] else [])
               ++ prints ∧
     Forall is_print prints) ∧
  match (embedding_stage env full_text bookmark w).1 with
  | Return b =>
      models.id b = models.id bookmark ∧ models.text b = models.text bookmark ∧
      (nonempty full_text = false → b = bookmark)
  | Raise => False
  | Abort => nonempty full_text = true
  end.
Proof.
  unfold embedding_stage. destruct (nonempty full_text) eqn:Ht.
  2:{ simpl. split; [done|]. split; [|done]. exists []. by rewrite app_nil_r. }
  unfold generate_embedding, bind, try_except, call, ret, print, emit, modify, gets.
  simpl. destruct (_model w) as [m|]; simpl.
  - destruct (m full_text) as [emb| |]; simpl.
    + split; [done|]. split; [|done]. by exists [].
    + split; [done|]. split; [|done].
      exists [Printed "Embedding failed:"]. split; [by rewrite <- app_assoc|].
      by apply Forall_singleton.
    + split; [done|]. split; [|done]. by exists [].
  - destruct (SentenceTransformer env) as [m| |]; simpl.
    + destruct (m full_text) as [emb| |]; simpl.
      * split; [done|]. split; [|done]. by exists [].
      * split; [done|]. split; [|done].
        exists [Printed "Embedding failed:"]. split; [by rewrite <- app_assoc|].
        by apply Forall_singleton.
      * split; [done|]. split; [|done]. by exists [].
    + split; [done|]. split; [|done].
      exists [Printed "Embedding failed:"]. split; [by rewrite <- app_assoc|].
      by apply Forall_singleton.
    + split; [done|]. split; [|done]. by exists [].
Qed.

(** ** Tagging *)

Lemma attach_labels_shape bookmark lbls w :
  (attach_labels bookmark lbls w).1 = Return tt ∧
  bookmark_table (db (attach_labels bookmark lbls w).2) = bookmark_table (db w) ∧
  tag_table (db (attach_labels bookmark lbls w).2) = list_to_set lbls ∪ tag_table (db w) ∧
  bookmark_tags (db (attach_labels bookmark lbls w).2) =
    tag_rows (models.id bookmark) lbls ∪ bookmark_tags (db w) ∧
  disk (attach_labels bookmark lbls w).2 = disk w ∧
  _clf (attach_labels bookmark lbls w).2 = _clf w ∧
  steps is_tag_write w (attach_labels bookmark lbls w).2.
Proof.
  revert w. induction lbls as [|lbl lbls IH]; intros w.
  { simpl. unfold tag_rows. simpl. rewrite !(left_id_L ∅ (∪)).
    repeat split. apply steps_refl. }
  simpl. unfold get_or_create, tags_add, bind, gets, ret, emit, modify. simpl.
  unfold tag_rows in *.
  destruct (decide (lbl ∈ tag_table (db w))) as [Hin|Hout]; simpl;
    destruct (decide ((models.id bookmark, lbl) ∈ bookmark_tags (db w)))
      as [Hrel|Hrel]; simpl;
    match goal with |- context [attach_labels _ _ ?w'] =>
      destruct (IH w') as (-> & -> & -> & -> & -> & -> & Hst) end;
    simpl; (split; [done|]); (split; [done|]);
    (split; [set_solver|]); (split; [set_solver|]);
    (split; [done|]); (split; [done|]).
  - done.
  - refine (steps_prefix _ [_] _ _ _ _ _ Hst); [reflexivity|].
    by apply Forall_singleton.
  - refine (steps_prefix _ [_] _ _ _ _ _ Hst); [reflexivity|].
    by apply Forall_singleton.
  - refine (steps_prefix _ [_; _] _ _ _ _ _ Hst).
    + simpl. rewrite <- app_assoc. reflexivity.
    + by repeat constructor.
Qed.

(** Attaching labels that are all attached already changes nothing. *)
Lemma attach_labels_present bookmark lbls w :
  (∀ lbl, lbl ∈ lbls → lbl ∈ tag_table (db w) ∧
                        (models.id bookmark, lbl) ∈ bookmark_tags (db w)) →
  attach_labels bookmark lbls w = (Return tt, w).
Proof.
  induction lbls as [|lbl lbls IH]; intros Hall; [done|].
  simpl. unfold get_or_create, tags_add, bind, gets, ret. simpl.
  destruct (Hall lbl) as [Ht Hr]; [by left|].
  rewrite decide_True by done. simpl. rewrite decide_True by done.
  apply IH. intros l Hl. apply Hall. by right.
Qed.

Lemma auto_tag_run env full_text w :
  db (auto_tag env full_text None default_threshold w).2 = db w ∧
  disk (auto_tag env full_text None default_threshold w).2 = disk w ∧
  trace (auto_tag env full_text None default_threshold w).2 =
    trace w ++ [Tagger_called full_text] ∧
  classifier_in_use env (auto_tag env full_text None default_threshold w).2 =
    classifier_in_use env w ∧
  ((auto_tag env full_text None default_threshold w).1 = Raise ∨
   (auto_tag env full_text None default_threshold w).1 = Abort ∨
   ∃ c, classifier_in_use env w = Return c ∧
        _clf (auto_tag env full_text None default_threshold w).2 = Some c).
Proof.
  unfold auto_tag, classifier_in_use, bind, gets, call, ret, emit, modify. simpl.
  destruct (_clf w) as [c|] eqn:Ec; simpl.
  - destruct (c full_text default_labels) as [res| |]; simpl; rewrite Ec;
      repeat split; eauto.
  - destruct (pipeline env) as [c| |]; simpl; [|rewrite Ec; repeat split; eauto..].
    destruct (c full_text default_labels) as [res| |]; simpl; repeat split; eauto.
Qed.

(** The outcome of [auto_tag] is decided by the classifier in use. *)
Lemma auto_tag_deterministic env full_text w w' :
  classifier_in_use env w' = classifier_in_use env w →
  (auto_tag env full_text None default_threshold w').1 =
  (auto_tag env full_text None default_threshold w).1.
Proof.
  unfold auto_tag, classifier_in_use, bind, gets, call, ret, emit, modify. simpl.
  intros H.
  destruct (_clf w) as [c|], (_clf w') as [c'|]; simpl in *.
  - simplify_eq. by destruct (c full_text default_labels).
  - rewrite H. simpl. by destruct (c full_text default_labels).
  - rewrite <- H. simpl. by destruct (c' full_text default_labels).
  - destruct (pipeline env) as [c| |]; simpl; [|done..].
    by destruct (c full_text default_labels).
Qed.

Lemma tagging_stage_unfold env full_text bookmark w :
  nonempty full_text = true →
  tagging_stage env full_text bookmark w =
  match auto_tag env full_text None default_threshold w with
  | (Return lbls, w') => attach_labels bookmark lbls w'
  | (Raise, w') => print "Auto-tagging failed:" w'
  | (Abort, w') => (Abort, w')
  end.
Proof.
  intros Ht. unfold tagging_stage. rewrite Ht. unfold try_except, bind.
  destruct (auto_tag env full_text None default_threshold w) as [[lbls| |] w'];
    try done.
  pose proof (attach_labels_shape bookmark lbls w') as (Hr & _).
  destruct (attach_labels bookmark lbls w') as [r w'']. simpl in Hr. by subst.
Qed.

(** The tagging stage: one call of the tagger when there is text, none
    otherwise; it leaves rows and vector store alone, adds the rows of the
    labels it obtained, and never raises. *)
Lemma tagging_stage_shape env full_text bookmark w :
  bookmark_table (db (tagging_stage env full_text bookmark w).2) = bookmark_table (db w) ∧
  disk (tagging_stage env full_text bookmark w).2 = disk w ∧
  bookmark_tags (db (tagging_stage env full_text bookmark w).2) =
    tag_rows (models.id bookmark) (stage_labels env full_text w) ∪ bookmark_tags (db w) ∧
  tag_table (db (tagging_stage env full_text bookmark w).2) =
    list_to_set (stage_labels env full_text w) ∪ tag_table (db w) ∧
  classifier_in_use env (tagging_stage env full_text bookmark w).2 =
    classifier_in_use env w ∧
  (∃ rest,
     trace (tagging_stage env full_text bookmark w).2 =
       trace w ++ (if nonempty full_text then [Tagger_called full_text] else [])
               ++ rest ∧
     Forall (fun e => is_tag_write e ∨ is_print e) rest) ∧
  (tagging_stage env full_text bookmark w).1 ≠ Raise.
Proof.
  unfold stage_labels. destruct (nonempty full_text) eqn:Ht.
  2:{ unfold tagging_stage. rewrite Ht. simpl. unfold tag_rows. simpl.
      rewrite !(left_id_L ∅ (∪)). repeat split; try done.
      exists []. by rewrite app_nil_r. }
  rewrite tagging_stage_unfold by done.
  pose proof (auto_tag_run env full_text w) as (Hdb & Hdk & Htr & Hcl & Hcache).
  destruct (auto_tag env full_text None default_threshold w) as [[lbls| |] w'];
    simpl in *.
  - pose proof (attach_labels_shape bookmark lbls w')
      as (Hr & Hbt & Htt & Hrel & Hd & Hc & (new & Hn & HF)).
    rewrite Hr, Hbt, Htt, Hrel, Hd, Hn, Htr, Hdb, Hdk.
    repeat split; try done.
    + unfold classifier_in_use in *. by rewrite Hc.
    + exists new. split; [by rewrite <- app_assoc|].
      eapply Forall_impl; [exact HF|]. by left.
  - unfold tag_rows. simpl. rewrite !(left_id_L ∅ (∪)), Hdb, Hdk, Htr.
    repeat split; try done.
    exists [Printed "Auto-tagging failed:"]. split; [by rewrite <- app_assoc|].
    apply Forall_singleton. by right.
  - unfold tag_rows. simpl. rewrite !(left_id_L ∅ (∪)), Hdb, Hdk, Htr.
    repeat split; try done. by exists [].
Qed.

(** C9. The tagging stage adds to the document exactly the rows of the
    labels it obtained, a union with the tags already there; run a second
    time on the same text it leaves the database as the first run left it
    and performs no write at all. *)
Theorem retagging_is_a_fixed_point (env : Env) (full_text : string)
    (bookmark : models.Bookmark) (w : World) :
  let w1 := (tagging_stage env full_text bookmark w).2 in
  let w2 := (tagging_stage env full_text bookmark w1).2 in
  bookmark_tags (db w1) =
    tag_rows (models.id bookmark) (stage_labels env full_text w) ∪ bookmark_tags (db w) ∧
  db w2 = db w1 ∧
  Forall (fun e => ¬ is_write e) (new_events w1 w2).
Proof.
  intros w1 w2.
  pose proof (tagging_stage_shape env full_text bookmark w)
    as (_ & _ & Hrel & Htt & Hcl & _ & _).
  fold w1 in Hrel, Htt, Hcl. split; [exact Hrel|].
  destruct (nonempty full_text) eqn:Ht.
  2:{ subst w2. unfold tagging_stage. rewrite Ht. simpl. split; [done|].
      unfold new_events. by rewrite drop_all. }
  subst w2. rewrite tagging_stage_unfold by done.
  pose proof (auto_tag_run env full_text w1) as (Hdb & _ & Htr & _ & _).
  pose proof (auto_tag_deterministic env full_text w w1 Hcl) as Hsame.
  unfold stage_labels in Hrel, Htt. rewrite Ht, <- Hsame in Hrel, Htt.
  destruct (auto_tag env full_text None default_threshold w1) as [[lbls| |] w1'];
    simpl in *.
  - rewrite attach_labels_present.
    + simpl. split; [done|]. rewrite (new_events_app _ _ _ Htr).
      forall_events.
    + intros lbl Hl. rewrite Hdb, Htt, Hrel. split; [set_solver|].
      apply elem_of_union_l. unfold tag_rows.
      apply elem_of_list_to_set, list_elem_of_fmap. eauto.
  - split; [done|].
    rewrite (new_events_app _ _ [Tagger_called full_text; Printed "Auto-tagging failed:"]).
    + forall_events.
    + simpl. rewrite Htr, <- app_assoc. done.
  - split; [done|]. rewrite (new_events_app _ _ _ Htr). forall_events.
Qed.

Example retagging_sample :
  let w := initial_world empty_db fresh_disk in
  let w1 := (tagging_stage env_ok "hello" new_bookmark w).2 in
  let w2 := (tagging_stage env_ok "hello" new_bookmark w1).2 in
  bookmark_tags (db w1) = {[ (5, "python"%string); (5, "ai"%string) ]} ∧
  bookmark_tags (db w2) = {[ (5, "python"%string); (5, "ai"%string) ]} ∧
  new_events w1 w2 = [Tagger_called "hello"].
Proof. intros w w1 w2. split; [|split]; vm_compute; reflexivity. Qed.

(** ** The whole pipeline *)

Lemma faiss_stage_shape bookmark w :
  (faiss_stage bookmark w).1 = Return tt ∧
  db (faiss_stage bookmark w).2 = db w ∧
  steps is_index_event w (faiss_stage bookmark w).2.
Proof.
  unfold faiss_stage.
  destruct (models.embedding bookmark) as [[|x emb]|];
    try (simpl; repeat split; apply steps_refl).
  unfold try_except, index_add, print, emit, modify.
  pose proof (add_embedding_to_index_no_Abort (models.id bookmark) (x :: emb) (disk w)).
  destruct (add_embedding_to_index _ _ (disk w)) as [dk| |]; simpl; [| |done].
  - repeat split. by eapply steps_logged.
  - repeat split. by eapply steps_logged.
Qed.

Lemma embedder_calls_app l1 l2 :
  embedder_calls (l1 ++ l2) = embedder_calls l1 ++ embedder_calls l2.
Proof. apply omap_app. Qed.

Lemma tagger_calls_app l1 l2 :
  tagger_calls (l1 ++ l2) = tagger_calls l1 ++ tagger_calls l2.
Proof. apply omap_app. Qed.

Lemma no_embedder_calls (P : Event → Prop) evs :
  (∀ t, ¬ P (Embedder_called t)) → Forall P evs → embedder_calls evs = [].
Proof.
  intros HP. induction 1 as [|e evs He _ IH]; [done|].
  unfold embedder_calls in *. csimpl. rewrite IH.
  destruct e; try done. by destruct (HP text).
Qed.

Lemma no_tagger_calls (P : Event → Prop) evs :
  (∀ t, ¬ P (Tagger_called t)) → Forall P evs → tagger_calls evs = [].
Proof.
  intros HP. induction 1 as [|e evs He _ IH]; [done|].
  unfold tagger_calls in *. csimpl. rewrite IH.
  destruct e; try done. by destruct (HP text).
Qed.

Lemma print_not_write e : is_print e → ¬ is_write e.
Proof. destruct e; simpl; tauto. Qed.

Lemma tag_event_not_save e : is_tag_write e ∨ is_print e → ¬ is_save e.
Proof. destruct e; simpl; tauto. Qed.

Lemma index_event_not_save e : is_index_event e → ¬ is_save e.
Proof. destruct e; simpl; tauto. Qed.

(** A run of [process_bookmark] either is interrupted before [save],
    having written nothing, or reaches [save]: then the row of the document
    is written once, from the gathered text and the embedding the
    embedding stage left, after events that write nothing and before
    events that are no [save]. *)
Lemma process_bookmark_run env bookmark w :
  ((process_bookmark env bookmark w).1 = Abort ∧
   same_stores w (process_bookmark env bookmark w).2 ∧
   ∃ new, trace (process_bookmark env bookmark w).2 = trace w ++ new ∧
          Forall (fun e => ¬ is_write e) new ∧
          ∀ t, t ∈ embedder_calls new → nonempty t = true)
  ∨
  ∃ (full_text : string) (b : models.Bookmark) (w2 : World) (pre post : list Event),
    (gather_text env bookmark w).1 = Return full_text ∧
    embedding_stage env full_text (set_text full_text bookmark)
      (gather_text env bookmark w).2 = (Return b, w2) ∧
    same_stores w w2 ∧
    ((process_bookmark env bookmark w).1 = Return b ∨
     (process_bookmark env bookmark w).1 = Abort) ∧
    trace (process_bookmark env bookmark w).2 =
      trace w ++ pre ++ Bookmark_saved (models.id bookmark) (row_of b) :: post ∧
    Forall (fun e => ¬ is_write e) pre ∧
    Forall (fun e => ¬ is_save e) post ∧
    embedder_calls pre = (if nonempty full_text then [full_text] else []) ∧
    embedder_calls post = [] ∧
    tagger_calls pre = [] ∧
    ((process_bookmark env bookmark w).1 = Return b →
     tagger_calls post = if nonempty full_text then [full_text] else []) ∧
    bookmark_table (db (process_bookmark env bookmark w).2) =
      <[models.id bookmark := row_of b]> (bookmark_table (db w)).
Proof.
  unfold process_bookmark, bind.
  pose proof (gather_text_shape env bookmark w) as (S1 & (n1 & T1 & F1) & R1).
  destruct (gather_text env bookmark w) as [[full_text| |] w1]; simpl in S1, T1, R1;
    [|done|].
  2:{ left. simpl. split; [done|]. split; [done|]. exists n1. split; [done|].
      split; [eapply Forall_impl; [exact F1|]; apply print_not_write|].
      rewrite (no_embedder_calls is_print n1) by first [done | simpl; tauto].
      by intros t ?%elem_of_nil. }
  pose proof (embedding_stage_shape env full_text (set_text full_text bookmark) w1)
    as (S2 & (n2 & T2 & F2) & R2).
  destruct (embedding_stage env full_text (set_text full_text bookmark) w1)
    as [[b| |] w2] eqn:E2; simpl in S2, T2, R2; [|done|].
  2:{ left. simpl. split; [done|]. split.
      { destruct S1, S2. split; congruence. }
      exists (n1 ++ [Embedder_called full_text] ++ n2). split; [|split].
      - rewrite T2, T1, R2. by rewrite <- app_assoc.
      - apply Forall_app. split.
        + eapply Forall_impl; [exact F1|]. apply print_not_write.
        + apply Forall_cons_2; [simpl; tauto|].
          eapply Forall_impl; [exact F2|]. apply print_not_write.
      - rewrite !embedder_calls_app.
        rewrite (no_embedder_calls is_print n1), (no_embedder_calls is_print n2)
          by first [done | simpl; tauto].
        simpl. by intros t ->%list_elem_of_singleton. }
  destruct R2 as (Hid & Htext & Hempty). right.
  assert (Hsave : save b w2 =
            (Return tt, log (Bookmark_saved (models.id bookmark) (row_of b))
               (set_db (fun dbs =>
                  {| bookmark_table := <[models.id bookmark := row_of b]> (bookmark_table dbs);
                     tag_table := tag_table dbs;
                     bookmark_tags := bookmark_tags dbs |}) w2))).
  { unfold save, bind, modify, emit. simpl. by rewrite Hid. }
  rewrite Hsave. clear Hsave. set (w3 := log _ _).
  pose proof (tagging_stage_shape env full_text b w3)
    as (Hbt & _ & _ & _ & _ & (n4 & T4 & F4) & R4).
  pose proof (fun w4 => faiss_stage_shape b w4) as Hfaiss.
  set (pre := n1 ++ (if nonempty full_text then [Embedder_called full_text] else []) ++ n2).
  assert (Hpre : trace w3 = trace w ++ pre ++ [Bookmark_saved (models.id bookmark) (row_of b)]).
  { subst w3 pre. simpl. rewrite T2, T1. by rewrite <- !app_assoc. }
  assert (Fpre : Forall (fun e => ¬ is_write e) pre).
  { subst pre. apply Forall_app. split.
    - eapply Forall_impl; [exact F1|]. apply print_not_write.
    - apply Forall_app. split.
      + destruct (nonempty full_text); forall_events.
      + eapply Forall_impl; [exact F2|]. apply print_not_write. }
  assert (Epre : embedder_calls pre = if nonempty full_text then [full_text] else []).
  { subst pre. rewrite !embedder_calls_app.
    rewrite (no_embedder_calls is_print n1), (no_embedder_calls is_print n2)
      by first [done | simpl; tauto].
    rewrite app_nil_r. by destruct (nonempty full_text). }
  assert (Tpre : tagger_calls pre = []).
  { subst pre. rewrite !tagger_calls_app.
    rewrite (no_tagger_calls is_print n1), (no_tagger_calls is_print n2)
      by first [done | simpl; tauto].
    by destruct (nonempty full_text). }
  assert (S12 : same_stores w w2).
  { destruct S1, S2. split; congruence. }
  assert (Hrow : bookmark_table (db w3) =
                 <[models.id bookmark := row_of b]> (bookmark_table (db w))).
  { subst w3. simpl. destruct S12 as [-> _]. done. }
  assert (E4 : embedder_calls ((if nonempty full_text then [Tagger_called full_text] else []) ++ n4) = []).
  { rewrite embedder_calls_app.
    rewrite (no_embedder_calls (fun e => is_tag_write e ∨ is_print e) n4);
      [by destruct (nonempty full_text) | simpl; tauto | done]. }
  assert (G4 : tagger_calls ((if nonempty full_text then [Tagger_called full_text] else []) ++ n4)
               = if nonempty full_text then [full_text] else []).
  { rewrite tagger_calls_app.
    rewrite (no_tagger_calls (fun e => is_tag_write e ∨ is_print e) n4);
      [by destruct (nonempty full_text) | simpl; tauto | done]. }
  assert (F4' : Forall (fun e => ¬ is_save e)
                  ((if nonempty full_text then [Tagger_called full_text] else []) ++ n4)).
  { apply Forall_app. split; [destruct (nonempty full_text); forall_events|].
    eapply Forall_impl; [exact F4|]. apply tag_event_not_save. }
  destruct (tagging_stage env full_text b w3) as [[[]| |] w4]; simpl in *; [|done|].
  2:{ exists full_text, b, w2, pre,
        ((if nonempty full_text then [Tagger_called full_text] else []) ++ n4).
      split; [done|]. split; [done|]. split; [done|]. split; [by right|].
      split; [by rewrite T4, Hpre, <- !app_assoc|].
      split; [done|]. split; [done|]. split; [done|]. split; [done|].
      split; [done|]. split; [done|]. by rewrite Hbt. }
  destruct (Hfaiss w4) as (R5 & D5 & (n5 & T5 & F5)).
  destruct (faiss_stage b w4) as [r5 w5]. simpl in *. subst r5. simpl.
  exists full_text, b, w2, pre,
    (((if nonempty full_text then [Tagger_called full_text] else []) ++ n4) ++ n5).
  split; [done|]. split; [done|]. split; [done|]. split; [by left|].
  split; [by rewrite T5, T4, Hpre, <- !app_assoc|].
  split; [done|]. split.
  { apply Forall_app. split; [done|].
    eapply Forall_impl; [exact F5|]. apply index_event_not_save. }
  split; [done|]. split.
  { rewrite embedder_calls_app, E4.
    by rewrite (no_embedder_calls is_index_event n5)
      by first [done | simpl; tauto]. }
  split; [done|]. split.
  { intros _. rewrite tagger_calls_app, G4.
    rewrite (no_tagger_calls is_index_event n5) by first [done | simpl; tauto].
    by rewrite app_nil_r. }
  by rewrite D5, Hbt.
Qed.

(** ** When the document is written *)

(** C6, as the code has it. A run of [process_bookmark] that is
    interrupted before [save] has written nothing: database and vector
    store are as before. Every other run writes the row of the document
    (text and embedding) exactly once, preceded by no write at all and so
    before any tag or index write; the row then stored is the one written,
    also when the run is interrupted later. *)
Theorem row_saved_once_before_tagging (env : Env) (bookmark : models.Bookmark)
    (w : World) :
  let r := process_bookmark env bookmark w in
  (r.1 = Abort ∧ same_stores w r.2 ∧
   persisted (models.id bookmark) r.2 = persisted (models.id bookmark) w ∧
   Forall (fun e => ¬ is_write e) (new_events w r.2))
  ∨
  (∃ (row : BookmarkRow) (pre post : list Event),
     r.1 ≠ Raise ∧
     new_events w r.2 = pre ++ Bookmark_saved (models.id bookmark) row :: post ∧
     Forall (fun e => ¬ is_write e) pre ∧
     Forall (fun e => ¬ is_save e) post ∧
     bookmark_table (db r.2) !! models.id bookmark = Some row).
Proof.
  intros r. subst r.
  destruct (process_bookmark_run env bookmark w)
    as [(Hr & Hs & new & Ht & HF & _)
       |(ft & b & w2 & pre & post & _ & _ & _ & Hr & Ht & Hpre & Hpost & _ & _ & _ & _ & Hrow)].
  - left. split; [done|]. split; [done|]. split.
    + unfold persisted. by destruct Hs as [-> _].
    + by rewrite (new_events_app _ _ _ Ht).
  - right. exists (row_of b), pre, post. split.
    { by destruct Hr as [-> | ->]. }
    split; [by rewrite (new_events_app _ _ _ Ht)|].
    split; [done|]. split; [done|]. rewrite Hrow. apply lookup_insert_eq.
Qed.

(** C6, as stated, fails: a run interrupted while the classifier loads has
    already stored text and embedding of the document. *)
Lemma interrupted_run_keeps_saved_row :
  let w := initial_world empty_db fresh_disk in
  let r := process_bookmark env_interrupted_tagging new_bookmark w in
  r.1 = Abort ∧
  persisted 5 w = (None, ∅) ∧
  persisted 5 r.2 =
    (Some {| row_text := "hello"; row_embedding := Some (replicate 384 (1 # 2)%Q) |}, ∅).
Proof. intros w r. split; [|split]; vm_compute; reflexivity. Qed.

(** ** When the models are called *)

(** C7, as the code has it. In a run that returns, the embedder is called
    once, on the gathered text, when that text is non-empty and not at all
    otherwise; and so is the tagger, whether or not the embedding stage
    produced an embedding. *)
Theorem models_called_when_text_gathered (env : Env) (bookmark b : models.Bookmark)
    (w : World) :
  (process_bookmark env bookmark w).1 = Return b →
  (gather_text env bookmark w).1 = Return (models.text b) ∧
  embedder_calls (new_events w (process_bookmark env bookmark w).2) =
    (if nonempty (models.text b) then [models.text b] else []) ∧
  tagger_calls (new_events w (process_bookmark env bookmark w).2) =
    (if nonempty (models.text b) then [models.text b] else []).
Proof.
  intros Hret.
  destruct (process_bookmark_run env bookmark w)
    as [(Hr & _)
       |(ft & b' & w2 & pre & post & Hg & He & _ & Hr & Ht & _ & _
          & Epre & Epost & Tpre & Tpost & _)]; [congruence|].
  assert (b' = b) as -> by (destruct Hr; congruence).
  pose proof (embedding_stage_shape env ft (set_text ft bookmark)
                (gather_text env bookmark w).2) as (_ & _ & Hb).
  rewrite He in Hb. simpl in Hb. destruct Hb as (_ & Htext & _).
  rewrite Htext. split; [done|].
  rewrite (new_events_app _ _ _ Ht).
  change (Bookmark_saved ?i ?r :: post) with ([Bookmark_saved i r] ++ post).
  rewrite !embedder_calls_app, !tagger_calls_app, Epre, Epost, Tpre, (Tpost Hret).
  simpl. by rewrite app_nil_r.
Qed.

Lemma models_called_when_text_gathered_witness :
  let w := initial_world empty_db fresh_disk in
  let r := process_bookmark env_embedder_down new_bookmark w in
  ∃ b, r.1 = Return b ∧ models.embedding b = None ∧ models.text b = "hello"%string ∧
       embedder_calls (new_events w r.2) = ["hello"%string] ∧
       tagger_calls (new_events w r.2) = ["hello"%string].
Proof.
  intros w r. exists (set_embedding None (set_text "hello" new_bookmark)).
  assert (Hret : r.1 = Return (set_embedding None (set_text "hello" new_bookmark)))
    by (vm_compute; reflexivity).
  split; [exact Hret|]. split; [reflexivity|]. split; [reflexivity|].
  exact (proj2 (models_called_when_text_gathered env_embedder_down new_bookmark
                  _ w Hret)).
Defined.

(** C7, as stated, fails: the embedding model cannot be loaded, the
    embedding stage fails, and the tagger is called all the same. *)
Lemma tagger_called_after_failed_embedding :
  let w := initial_world empty_db fresh_disk in
  let r := process_bookmark env_embedder_down new_bookmark w in
  persisted 5 r.2 =
    (Some {| row_text := "hello"; row_embedding := None |},
     {[ (5, "python"%string); (5, "ai"%string) ]}) ∧
  trace r.2 =
    [Embedder_called "hello"; Printed "Embedding failed:";
     Bookmark_saved 5 {| row_text := "hello"; row_embedding := None |};
     Tagger_called "hello";
     Tag_created "python"; Tag_attached 5 "python";
     Tag_created "ai"; Tag_attached 5 "ai"].
Proof. intros w r. split; vm_compute; reflexivity. Qed.

(** ** The embedder *)

(** C8, as the code has it. [generate_embedding] hands every text, the
    empty one included, to the model and returns what the model returns:
    it fails exactly when the model cannot be loaded or its call fails,
    and its vectors have 384 components when those of the model do. The
    pipeline itself never calls it on an empty text. *)
Theorem generate_embedding_forwards_text (env : Env) (text : string) (w : World) :
  (generate_embedding env text w).1 =
    match model_in_use env w with
    | Return m => m text
    | Raise => Raise
    | Abort => Abort
    end ∧
  (∀ (m : encoder) (vec : list Q),
     model_in_use env w = Return m →
     (∀ t v, m t = Return v → length v = 384%nat) →
     (generate_embedding env text w).1 = Return vec →
     length vec = 384%nat) ∧
  (∀ (bookmark : models.Bookmark) (t : string),
     t ∈ embedder_calls (new_events w (process_bookmark env bookmark w).2) →
     nonempty t = true).
Proof.
  assert (H1 : (generate_embedding env text w).1 =
               match model_in_use env w with
               | Return m => m text
               | Raise => Raise
               | Abort => Abort
               end).
  { unfold generate_embedding, model_in_use, bind, gets, call, ret, emit, modify.
    simpl. destruct (_model w) as [m|]; simpl.
    - by destruct (m text).
    - destruct (SentenceTransformer env) as [m| |]; simpl; [|done..].
      by destruct (m text). }
  split; [exact H1|]. split.
  - intros m vec Hm Hlen Hret. rewrite H1, Hm in Hret. by eapply Hlen.
  - intros bookmark t.
    destruct (process_bookmark_run env bookmark w)
      as [(_ & _ & new & Ht & _ & Hcalls)
         |(ft & b & w2 & pre & post & _ & _ & _ & _ & Ht & _ & _
            & Epre & Epost & _)].
    + rewrite (new_events_app _ _ _ Ht). apply Hcalls.
    + rewrite (new_events_app _ _ _ Ht).
      change (Bookmark_saved ?i ?r :: post) with ([Bookmark_saved i r] ++ post).
      rewrite !embedder_calls_app, Epre, Epost. simpl. rewrite app_nil_r.
      destruct (nonempty ft) eqn:E; [|by intros ?%elem_of_nil].
      by intros ->%list_elem_of_singleton.
Qed.

Lemma generate_embedding_forwards_text_witness :
  let w := initial_world empty_db fresh_disk in
  (generate_embedding env_ok "hello" w).1 = Return (replicate 384 (1 # 2)%Q) ∧
  length (replicate 384 (1 # 2)%Q) = 384%nat.
Proof.
  intros w.
  destruct (generate_embedding_forwards_text env_ok "hello" w) as (H1 & H2 & _).
  assert (E : (generate_embedding env_ok "hello" w).1 = Return (replicate 384 (1 # 2)%Q)).
  { rewrite H1. reflexivity. }
  split; [exact E|].
  apply (H2 constant_encoder _ eq_refl); [|exact E].
  intros t v Hv. unfold constant_encoder in Hv.
  injection Hv as <-. vm_compute. reflexivity.
Defined.

(** C8, as stated, fails: with a model that answers every text, the empty
    text gets a vector, not an error. *)
Lemma empty_text_is_embedded :
  (generate_embedding env_ok "" (initial_world empty_db fresh_disk)).1 =
  Return (replicate 384 (1 # 2)%Q).
Proof. vm_compute. reflexivity. Qed.

(** ** The stored text *)

(** Whenever [save] is reached the stored text is the stripped join of the
    extracted chunks, whatever was stored before; without text the
    embedder is not called and the embedding field keeps its old value. *)
Lemma stored_text_is_gathered_text env bookmark w b :
  (process_bookmark env bookmark w).1 = Return b →
  (gather_text env bookmark w).1 = Return (models.text b) ∧
  bookmark_table (db (process_bookmark env bookmark w).2) !! models.id bookmark
    = Some (row_of b) ∧
  (nonempty (models.text b) = false →
   models.embedding b = models.embedding bookmark).
Proof.
  intros Hret.
  destruct (process_bookmark_run env bookmark w)
    as [(Hr & _)
       |(ft & b' & w2 & pre & post & Hg & He & _ & Hr & _ & _ & _ & _ & _ & _ & _ & Hrow)];
    [congruence|].
  assert (b' = b) as -> by (destruct Hr; congruence).
  pose proof (embedding_stage_shape env ft (set_text ft bookmark)
                (gather_text env bookmark w).2) as (_ & _ & Hb).
  rewrite He in Hb. simpl in Hb. destruct Hb as (_ & Htext & Hemp).
  subst ft. split; [done|]. split; [by rewrite Hrow, lookup_insert_eq|].
  intros Hne. by rewrite (Hemp Hne).
Qed.

(** C10 at a bookmark processed before whose only source now fails: the
    stored text becomes empty, the stored embedding stays the old vector,
    and that vector is appended to the index a second time. *)
Theorem reprocessing_without_text_keeps_embedding :
  let r := process_bookmark env_sources_down processed_bookmark processed_world in
  r.1 = Return (set_text "" processed_bookmark) ∧
  bookmark_table (db r.2) !! 5 =
    Some {| row_text := ""; row_embedding := Some [1%Q; 0%Q] |} ∧
  embedder_calls (trace r.2) = [] ∧
  stored (disk processed_world) = [[1%Q; 0%Q]] ∧
  stored (disk r.2) = [[1%Q; 0%Q]; [1%Q; 0%Q]] ∧
  mapping (disk r.2) !! str 1 = Some 5.
Proof. intros r. repeat (split; [vm_compute; reflexivity|]). vm_compute. reflexivity. Qed.

(** * Further properties *)

(** ** When an add fails *)

(** X1. an add fails only on a wrong dimension. [add_embedding_to_index]
    raises exactly when an index file exists and the vector has another
    length than its dimension; without an index file it always returns,
    creating an index of the vector's dimension that holds this vector;
    with one it keeps the dimension. *)
Theorem add_fails_only_on_dimension (bookmark_id : Z) (emb : list Q) (disk : Disk) :
  (add_embedding_to_index bookmark_id emb disk = Raise ↔
   ∃ index, FAISS_INDEX_FILE disk = Some index ∧ length emb ≠ Faiss.d index) ∧
  (FAISS_INDEX_FILE disk = None →
   ∃ disk' index',
     add_embedding_to_index bookmark_id emb disk = Return disk' ∧
     FAISS_INDEX_FILE disk' = Some index' ∧
     Faiss.d index' = length emb ∧ Faiss.xb index' = [emb]) ∧
  (∀ index disk',
     FAISS_INDEX_FILE disk = Some index →
     add_embedding_to_index bookmark_id emb disk = Return disk' →
     ∃ index', FAISS_INDEX_FILE disk' = Some index' ∧
               Faiss.d index' = Faiss.d index ∧ length emb = Faiss.d index).
Proof.
  unfold add_embedding_to_index, _load_faiss, Faiss.add.
  destruct disk as [[index|] vm]; simpl.
  - case_decide as Hd; (split; [|split]).
    + split; [done|]. intros (? & Hi & ?). by simplify_eq.
    + done.
    + intros ? ? Hi Hr. simplify_eq. simpl. eauto.
    + split; [|done]. intros _. eauto.
    + done.
    + intros ? ? Hi Hr. done.
  - rewrite decide_True by done. split; [|split].
    + split; [done|]. by intros (? & ? & _).
    + intros _. do 2 eexists. split; [reflexivity|]. simpl. done.
    + intros ? ? ?. done.
Qed.

Lemma add_fails_only_on_dimension_witness :
  add_embedding_to_index 3 [1%Q] twice_indexed = Raise ∧
  ∃ disk' index',
    add_embedding_to_index 3 [1%Q] fresh_disk = Return disk' ∧
    FAISS_INDEX_FILE disk' = Some index' ∧
    Faiss.d index' = 1%nat ∧ Faiss.xb index' = [[1%Q]].
Proof.
  destruct (add_fails_only_on_dimension 3 [1%Q] twice_indexed) as ((_ & Hr) & _ & _).
  destruct (add_fails_only_on_dimension 3 [1%Q] fresh_disk) as (_ & Hf & _).
  split.
  - apply Hr. eexists. split; [vm_compute; reflexivity|]. simpl. lia.
  - apply Hf. reflexivity.
Defined.

(** ** The order of the results *)






















(** ** Index and mapping out of step *)

Lemma search_ids_in_mapping q k disk ids doc :
  search_embeddings q k disk = Return ids → doc ∈ ids →
  ∃ key : string, mapping disk !! key = Some doc.
Proof.
  unfold search_embeddings, search_loaded, mapping.
  destruct (_load_faiss disk) as [[index|] vm]; simpl.
  2:{ intros [= <-]. by intros ?%elem_of_nil. }
  case_decide; [intros [= <-]; by intros ?%elem_of_nil|].
  destruct (Faiss.search _ _ _) as [idxs| |]; [|done..].
  intros [= <-] (i & _ & Hi)%list_elem_of_omap. eauto.
Qed.

(** X5. an index whose mapping file is missing. The next add writes a
    mapping holding only its own position, so every search afterwards can
    return no id but the one just added, whatever the index holds; before
    that add every search returns the empty list. *)
Theorem missing_mapping_hides_vectors (bookmark_id : Z) (emb : list Q)
    (disk disk' : Disk) :
  VECTOR_MAP_FILE disk = None →
  add_embedding_to_index bookmark_id emb disk = Return disk' →
  (∀ q k ids, search_embeddings q k disk = Return ids → ids = []) ∧
  mapping disk' = {[ str (Z.of_nat (disk_ntotal disk)) := bookmark_id ]} ∧
  disk_ntotal disk' = S (disk_ntotal disk) ∧
  (∀ q k ids doc, search_embeddings q k disk' = Return ids → doc ∈ ids →
     doc = bookmark_id).
Proof.
  intros Hmap E.
  assert (Hempty : mapping disk = ∅).
  { unfold mapping, _load_faiss. simpl. by rewrite Hmap. }
  apply add_embedding_to_index_Return in E as [Hs Hm].
  rewrite Hempty in Hm.
  split; [|split; [|split]].
  - intros q k ids Hs'. destruct ids as [|doc ids]; [done|].
    destruct (search_ids_in_mapping q k disk (doc :: ids) doc Hs') as [key Hkey];
      [by left|].
    by rewrite Hempty, lookup_empty in Hkey.
  - by rewrite Hm, insert_empty.
  - unfold disk_ntotal at 1. rewrite Hs, length_app. simpl.
    fold (disk_ntotal disk). lia.
  - intros q k ids doc Hs' Hdoc.
    destruct (search_ids_in_mapping q k disk' ids doc Hs' Hdoc) as [key Hkey].
    rewrite Hm in Hkey. apply lookup_insert_Some in Hkey as [[_ ->]|[_ Hkey]]; [done|].
    by rewrite lookup_empty in Hkey.
Qed.

Lemma missing_mapping_hides_vectors_witness :
  ∃ disk',
    add_embedding_to_index 9 [1%Q; 1%Q] unmapped_store = Return disk' ∧
    search_embeddings [1%Q; 0%Q] 3 unmapped_store = Return [] ∧
    search_embeddings [1%Q; 0%Q] 3 disk' = Return [9] ∧
    disk_ntotal disk' = 3%nat.
Proof.
  eexists. split; [vm_compute; reflexivity|].
  destruct (missing_mapping_hides_vectors 9 [1%Q; 1%Q] unmapped_store _ eq_refl eq_refl)
    as (He & _ & Hn & _).
  split; [|split; [vm_compute; reflexivity|exact Hn]].
  assert (E : ∃ ids, search_embeddings [1%Q; 0%Q] 3 unmapped_store = Return ids)
    by (eexists; vm_compute; reflexivity).
  destruct E as [ids E]. by rewrite E, (He _ _ _ E).
Defined.

(** X6. a mapping whose index file is missing. The next add starts a new
    index at position 0: it overwrites the entry of position 0 and keeps
    every other entry of the old mapping, which now name positions the
    index does not have. *)
Theorem missing_index_restarts_positions (bookmark_id : Z) (emb : list Q)
    (disk : Disk) :
  FAISS_INDEX_FILE disk = None →
  ∃ disk',
    add_embedding_to_index bookmark_id emb disk = Return disk' ∧
    stored disk' = [emb] ∧
    mapping disk' !! str 0 = Some bookmark_id ∧
    (∀ key, key ≠ str 0 → mapping disk' !! key = mapping disk !! key) ∧
    (∀ p : nat, (1 ≤ p)%nat → is_Some (mapping disk !! str (Z.of_nat p)) →
       ¬ mapping_tracks_index disk').
Proof.
  intros Hi.
  assert (Hst : stored disk = []).
  { unfold stored, _load_faiss. simpl. by rewrite Hi. }
  destruct (add_embedding_to_index bookmark_id emb disk) as [disk'| |] eqn:E.
  2,3: (revert E; unfold add_embedding_to_index, _load_faiss, Faiss.add;
        rewrite Hi; simpl; by rewrite decide_True).
  exists disk'. split; [done|].
  apply add_embedding_to_index_Return in E as [Hs Hm].
  unfold disk_ntotal in Hm. rewrite Hst in Hs, Hm. simpl in Hs.
  change (Z.of_nat (length [])) with 0 in Hm.
  split; [done|]. split; [by rewrite Hm, lookup_insert_eq|].
  split; [intros key Hk; by rewrite Hm, lookup_insert_ne|].
  intros p Hp Hsome [_ Hdom].
  assert (Hsome' : is_Some (mapping disk' !! str (Z.of_nat p))).
  { rewrite Hm, lookup_insert_ne; [done|].
    intros Heq%str_inj. lia. }
  apply Hdom in Hsome' as (p' & Hp' & Heq).
  apply str_inj, Nat2Z.inj in Heq. subst p'.
  unfold disk_ntotal in Hp'. rewrite Hs in Hp'. simpl in Hp'. lia.
Qed.

Lemma missing_index_restarts_positions_witness :
  ∃ disk',
    add_embedding_to_index 9 [1%Q] unindexed_store = Return disk' ∧
    stored disk' = [[1%Q]] ∧
    mapping disk' !! str 0 = Some 9 ∧
    mapping disk' !! str 1 = Some 2 ∧
    ¬ mapping_tracks_index disk'.
Proof.
  destruct (missing_index_restarts_positions 9 [1%Q] unindexed_store eq_refl)
    as (disk' & E & Hs & H0 & Hold & Hbad).
  exists disk'. split; [exact E|]. split; [exact Hs|]. split; [exact H0|].
  split.
  - rewrite Hold; [vm_compute; reflexivity|]. intros Heq%str_inj. lia.
  - apply (Hbad 1%nat); [lia|]. vm_compute. eauto.
Defined.

(** ** The lazily loaded models *)

(** X7. the embedding model is loaded at most once. A call that finds or
    loads a model leaves it cached, and every later call, whatever the
    loader would now do, answers with that model and keeps it; a call
    whose load fails leaves the cache empty, so the next call loads
    again. The stores are never touched. *)
Theorem embedding_model_loaded_once (env : Env) (text : string) (w : World) :
  let w1 := (generate_embedding env text w).2 in
  same_stores w w1 ∧
  match model_in_use env w with
  | Return m =>
      _model w1 = Some m ∧
      ∀ (env' : Env) (text' : string),
        (generate_embedding env' text' w1).1 = m text' ∧
        _model (generate_embedding env' text' w1).2 = Some m
  | _ => _model w = None ∧ _model w1 = None
  end.
Proof.
  unfold generate_embedding, model_in_use, bind, gets, call, ret, emit, modify.
  simpl. destruct (_model w) as [m|] eqn:Em; simpl.
  - destruct (m text) as [v| |]; simpl; rewrite Em;
      (split; [done|]); (split; [done|]);
      intros env' text'; simpl; rewrite Em; simpl; by destruct (m text').
  - destruct (SentenceTransformer env) as [m| |]; simpl; [|by rewrite Em..].
    destruct (m text) as [v| |]; simpl;
      (split; [done|]); (split; [done|]);
      intros env' text'; simpl; by destruct (m text').
Qed.

(** X8. the classifier is loaded at most once. A call of [auto_tag] that
    finds or loads a classifier leaves it cached, and every later call
    uses it whatever the loader would now do; a call whose load fails
    leaves the cache empty, so the next call loads again. The stores are
    never touched. *)
Theorem classifier_loaded_once (env : Env) (text : string)
    (candidate_labels : option (list string)) (threshold : Q) (w : World) :
  let w1 := (auto_tag env text candidate_labels threshold w).2 in
  same_stores w w1 ∧
  match classifier_in_use env w with
  | Return c =>
      _clf w1 = Some c ∧
      ∀ env' : Env, classifier_in_use env' w1 = Return c
  | _ => _clf w = None ∧ _clf w1 = None
  end.
Proof.
  unfold auto_tag, classifier_in_use, bind, gets, call, ret, emit, modify.
  simpl. destruct (_clf w) as [c|] eqn:Ec; simpl.
  - destruct (c text _) as [res| |]; simpl; rewrite Ec; by repeat split.
  - destruct (pipeline env) as [c| |]; simpl; [|by rewrite Ec..].
    destruct (c text _) as [res| |]; simpl; by repeat split.
Qed.

Lemma zip_fst_sublist {A B} (l : list A) (k : list B) : (zip l k).*1 `sublist_of` l.
Proof.
  revert k. induction l as [|x l IH]; intros [|y k]; simpl; try done.
  - apply sublist_nil_l.
  - by apply sublist_skip.
Qed.

(** X9. what [auto_tag] returns. When it returns, its labels are those the
    classifier paired with a score at or above the threshold, in the
    classifier's order: a label is returned exactly when some position
    holds it with such a score; the candidates are the given ones, or the
    twelve default labels. *)
Theorem auto_tag_keeps_labels_at_threshold (env : Env) (text : string)
    (candidate_labels : option (list string)) (threshold : Q) (w : World)
    (lbls : list string) :
  (auto_tag env text candidate_labels threshold w).1 = Return lbls →
  ∃ (c : classifier) (labels : list string) (scores : list Q),
    classifier_in_use env w = Return c ∧
    c text (default default_labels candidate_labels) = Return (labels, scores) ∧
    lbls `sublist_of` labels ∧
    ∀ lbl : string,
      lbl ∈ lbls ↔
      ∃ (i : nat) (scr : Q),
        labels !! i = Some lbl ∧ scores !! i = Some scr ∧ (threshold <= scr)%Q.
Proof.
  assert (Hfilter : ∀ labels scores,
    let out := map fst (filter (fun ls : string * Q => Qle_bool threshold ls.2 = true)
                          (zip labels scores)) in
    out `sublist_of` labels ∧
    ∀ lbl, lbl ∈ out ↔ ∃ (i : nat) (scr : Q),
      labels !! i = Some lbl ∧ scores !! i = Some scr ∧ (threshold <= scr)%Q).
  { intros labels scores out. split.
    - subst out. change (map fst ?l) with (l.*1).
      etrans; [|apply (zip_fst_sublist labels scores)].
      apply fmap_sublist, sublist_filter.
    - intros lbl. subst out. change (map fst ?l) with (l.*1).
      rewrite list_elem_of_fmap. split.
      + intros ([l s] & -> & [Hs [i Hi]%list_elem_of_lookup]%list_elem_of_filter).
        apply lookup_zip_with_Some in Hi as (x & y & [= <- <-] & Hx & Hy).
        exists i, s. repeat split; try done. by apply Qle_bool_iff.
      + intros (i & scr & Hl & Hs & Hle). exists (lbl, scr). split; [done|].
        apply list_elem_of_filter. split; [by apply Qle_bool_iff|].
        apply list_elem_of_lookup. exists i. apply lookup_zip_with_Some. eauto. }
  unfold auto_tag, classifier_in_use, bind, gets, call, ret, emit, modify. simpl.
  replace (match candidate_labels with Some ls => ls | None => default_labels end)
    with (default default_labels candidate_labels) by by destruct candidate_labels.
  destruct (_clf w) as [c|]; simpl.
  - destruct (c text _) as [[labels scores]| |] eqn:E; simpl; [|done..].
    intros [= <-]. exists c, labels, scores. split; [done|]. split; [done|].
    apply Hfilter.
  - destruct (pipeline env) as [c| |]; simpl; [|done..].
    destruct (c text _) as [[labels scores]| |] eqn:E; simpl; [|done..].
    intros [= <-]. exists c, labels, scores. split; [done|]. split; [done|].
    apply Hfilter.
Qed.

Lemma auto_tag_keeps_labels_at_threshold_witness :
  (auto_tag env_ok "hello" None default_threshold (initial_world empty_db fresh_disk)).1
    = Return ["python"; "ai"]%string ∧
  ∃ (c : classifier) (labels : list string) (scores : list Q),
    c "hello"%string default_labels = Return (labels, scores) ∧
    ["python"; "ai"]%string `sublist_of` labels.
Proof.
  assert (E : (auto_tag env_ok "hello" None default_threshold
                 (initial_world empty_db fresh_disk)).1
              = Return ["python"; "ai"]%string) by (vm_compute; reflexivity).
  split; [exact E|].
  destruct (auto_tag_keeps_labels_at_threshold _ _ _ _ _ _ E)
    as (c & labels & scores & _ & Hc & Hsub & _).
  exists c, labels, scores. split; [exact Hc|exact Hsub].
Defined.

(** ** More on the pipeline *)

Lemma embedding_stage_result env full_text bookmark w b :
  (embedding_stage env full_text bookmark w).1 = Return b →
  b = if nonempty full_text
      then set_embedding
             match (generate_embedding env full_text w).1 with
             | Return emb => Some emb
             | _ => None
             end bookmark
      else bookmark.
Proof.
  unfold embedding_stage. destruct (nonempty full_text); [|by intros [= <-]].
  unfold try_except, bind, ret, print, emit, modify.
  destruct (generate_embedding env full_text w) as [[emb| |] w']; simpl;
    by intros [= <-].
Qed.

Lemma faiss_stage_disk bookmark w :
  disk (faiss_stage bookmark w).2 =
  match models.embedding bookmark with
  | Some (x :: emb) => guarded_add (disk w) (models.id bookmark, x :: emb)
  | _ => disk w
  end.
Proof.
  unfold faiss_stage, guarded_add.
  destruct (models.embedding bookmark) as [[|x emb]|]; try done.
  unfold try_except, index_add, print, emit, modify. simpl.
  by destruct (add_embedding_to_index _ _ (disk w)).
Qed.

(** What a run does to the stores. *)
Lemma process_bookmark_effects env bookmark w :
  ∃ lbls : list string,
    bookmark_tags (db (process_bookmark env bookmark w).2) =
      tag_rows (models.id bookmark) lbls ∪ bookmark_tags (db w) ∧
    tag_table (db (process_bookmark env bookmark w).2) =
      list_to_set lbls ∪ tag_table (db w) ∧
    (∀ other, other ≠ models.id bookmark →
       bookmark_table (db (process_bookmark env bookmark w).2) !! other =
       bookmark_table (db w) !! other) ∧
    (∀ b, (process_bookmark env bookmark w).1 = Return b →
       disk (process_bookmark env bookmark w).2 =
       match models.embedding b with
       | Some (x :: emb) => guarded_add (disk w) (models.id bookmark, x :: emb)
       | _ => disk w
       end) ∧
    ((process_bookmark env bookmark w).1 = Abort →
     disk (process_bookmark env bookmark w).2 = disk w) ∧
    (process_bookmark env bookmark w).1 ≠ Raise.
Proof.
  unfold process_bookmark, bind.
  pose proof (gather_text_shape env bookmark w) as ((D1 & K1) & _ & R1).
  destruct (gather_text env bookmark w) as [[full_text| |] w1]; simpl in D1, K1, R1;
    [|done|].
  2:{ exists []. unfold tag_rows. simpl. rewrite !(left_id_L ∅ (∪)), D1.
      repeat split; try done. }
  pose proof (embedding_stage_shape env full_text (set_text full_text bookmark) w1)
    as ((D2 & K2) & _ & R2).
  destruct (embedding_stage env full_text (set_text full_text bookmark) w1)
    as [[b| |] w2]; simpl in D2, K2, R2; [|done|].
  2:{ exists []. unfold tag_rows. simpl. rewrite !(left_id_L ∅ (∪)), D2, D1.
      repeat split; try done. congruence. }
  destruct R2 as (Hid & _ & _).
  unfold save at 1. unfold bind, modify, emit. simpl.
  set (w3 := log _ _).
  assert (D3 : bookmark_tags (db w3) = bookmark_tags (db w) ∧
               tag_table (db w3) = tag_table (db w) ∧
               disk w3 = disk w ∧
               ∀ other, other ≠ models.id bookmark →
                 bookmark_table (db w3) !! other = bookmark_table (db w) !! other).
  { subst w3. simpl. rewrite D2, D1, K2, K1. repeat split.
    intros other Ho. rewrite Hid. by rewrite lookup_insert_ne. }
  destruct D3 as (T3 & G3 & K3 & B3).
  pose proof (tagging_stage_shape env full_text b w3)
    as (Hbt & Hdk & Hrel & Htt & _ & _ & R4).
  exists (stage_labels env full_text w3).
  destruct (tagging_stage env full_text b w3) as [[[]| |] w4]; simpl in *; [|done|].
  2:{ rewrite Hrel, Htt, Hbt, Hdk, T3, G3, K3. rewrite Hid. repeat split; try done.
      rewrite Hid in B3. done. }
  pose proof (faiss_stage_shape b w4) as (R5 & D5 & _).
  pose proof (faiss_stage_disk b w4) as K5.
  destruct (faiss_stage b w4) as [r5 w5]. simpl in *. subst r5. simpl.
  rewrite D5, Hrel, Htt, Hbt, T3, G3, Hid. repeat split; try done.
  - by rewrite Hid in B3.
  - intros b' [= <-]. by rewrite K5, Hdk, K3, Hid.
Qed.

(** X10. a run never lets an exception of a stage out and touches only its
    own document. The outcome of [process_bookmark] is never an exception
    derived from [Exception]; the rows of other bookmarks are as before;
    no tag is ever removed, and every tag row added belongs to the
    bookmark processed. *)
Theorem process_bookmark_contains_failures (env : Env) (bookmark : models.Bookmark)
    (w : World) :
  (process_bookmark env bookmark w).1 ≠ Raise ∧
  (∀ other : Z, other ≠ models.id bookmark →
     bookmark_table (db (process_bookmark env bookmark w).2) !! other =
     bookmark_table (db w) !! other) ∧
  bookmark_tags (db w) ⊆ bookmark_tags (db (process_bookmark env bookmark w).2) ∧
  tag_table (db w) ⊆ tag_table (db (process_bookmark env bookmark w).2) ∧
  (∀ rel : Z * string,
     rel ∈ bookmark_tags (db (process_bookmark env bookmark w).2) →
     rel ∈ bookmark_tags (db w) ∨ rel.1 = models.id bookmark).
Proof.
  destruct (process_bookmark_effects env bookmark w)
    as (lbls & Hrel & Htt & Hother & _ & _ & Hr).
  split; [done|]. split; [done|]. rewrite Hrel, Htt.
  split; [set_solver|]. split; [set_solver|].
  intros rel [Hin|Hin]%elem_of_union; [right|by left].
  unfold tag_rows in Hin.
  apply elem_of_list_to_set, list_elem_of_fmap in Hin as (lbl & -> & _). done.
Qed.

(** ** The gathered text *)

Lemma gather_extracted extract msg sources chunks w :
  (∀ src, src ∈ sources → extract src ≠ Abort) →
  (gather extract msg sources chunks w).1 = Return (chunks ++ extracted extract sources).
Proof.
  revert chunks w. induction sources as [|src sources IH]; intros chunks w Hall.
  { simpl. by rewrite app_nil_r. }
  simpl. unfold bind, try_except, call, ret, print, emit, modify. simpl.
  unfold extracted. csimpl. fold (extracted extract sources).
  pose proof (Hall src (list_elem_of_here _ _)) as Hsrc.
  assert (Hrest : ∀ s, s ∈ sources → extract s ≠ Abort).
  { intros s Hs. apply Hall. by right. }
  destruct (extract src) as [t| |]; simpl; [| |done].
  - rewrite IH by done. by rewrite <- app_assoc.
  - by rewrite IH.
Qed.

Lemma gather_text_extracted (env : Env) (bookmark : models.Bookmark)
    (w : World) :
  (∀ url, url ∈ models.links bookmark → extract_text_from_url env url ≠ Abort) →
  (∀ path, path ∈ models.files bookmark → extract_text_from_file env path ≠ Abort) →
  (gather_text env bookmark w).1 =
  Return (strip (join newline
            (extracted (extract_text_from_url env) (models.links bookmark) ++
             extracted (extract_text_from_file env) (models.files bookmark)))).
Proof.
  intros Hl Hf. unfold gather_text, bind.
  pose proof (gather_extracted (extract_text_from_url env) "URL extraction failed:"
                (models.links bookmark) [] w Hl) as E1.
  destruct (gather _ _ (models.links bookmark) [] w) as [r1 w1]. simpl in E1.
  subst r1.
  pose proof (gather_extracted (extract_text_from_file env) "File extraction failed:"
                (models.files bookmark)
                ([] ++ extracted (extract_text_from_url env) (models.links bookmark))
                w1 Hf) as E2.
  destruct (gather _ _ (models.files bookmark) _ w1) as [r2 w2]. simpl in E2.
  subst r2. done.
Qed.

(** X11. failed sources are skipped, the others kept in order. When no
    extraction is interrupted, the gathered text is the stripped join, by
    newlines, of the texts of the links whose extraction returned followed
    by those of the files whose extraction returned, each list in the
    order of its sources. *)
Theorem gathered_text_joins_extracted (env : Env) (bookmark : models.Bookmark)
    (w : World) :
  (∀ url, url ∈ models.links bookmark → extract_text_from_url env url ≠ Abort) →
  (∀ path, path ∈ models.files bookmark → extract_text_from_file env path ≠ Abort) →
  (gather_text env bookmark w).1 =
  Return (strip (join newline
            (extracted (extract_text_from_url env) (models.links bookmark) ++
             extracted (extract_text_from_file env) (models.files bookmark)))).
Proof. apply gather_text_extracted. Qed.

Lemma gathered_text_joins_extracted_witness :
  (gather_text env_one_link_down two_link_bookmark
     (initial_world empty_db fresh_disk)).1 = Return "hello"%string.
Proof.
  rewrite (gathered_text_joins_extracted env_one_link_down two_link_bookmark).
  - vm_compute. reflexivity.
  - intros url _. simpl. by destruct (String.eqb url "http://a").
  - intros path _. done.
Defined.

(** *** Whitespace *)

Lemma lstrip_blank s : blank s = true → lstrip s = EmptyString.
Proof.
  induction s as [|c s IH]; simpl; [done|].
  intros [Hc Hs]%andb_prop. rewrite Hc. by apply IH.
Qed.

Lemma strip_blank s : blank s = true → strip s = EmptyString.
Proof. intros H. unfold strip. by rewrite (lstrip_blank s H). Qed.

Lemma blank_app s1 s2 :
  blank s1 = true → blank s2 = true → blank (s1 +:+ s2) = true.
Proof.
  induction s1 as [|c s1 IH]; simpl; [done|].
  intros [Hc Hs]%andb_prop H2. rewrite Hc. simpl. by apply IH.
Qed.

Lemma join_blank chunks :
  Forall (fun t => blank t = true) chunks → blank (join newline chunks) = true.
Proof.
  unfold join. induction 1 as [|t chunks Ht Hall IH]; [done|].
  simpl. destruct chunks as [|t' chunks]; [done|].
  apply blank_app; [done|]. apply blank_app; [done|]. apply IH.
Qed.

Lemma process_bookmark_without_text env bookmark w w1 :
  gather_text env bookmark w = (Return EmptyString, w1) →
  (process_bookmark env bookmark w).1 = Return (set_text "" bookmark).
Proof.
  intros E. unfold process_bookmark, bind. rewrite E.
  unfold embedding_stage, tagging_stage. simpl.
  pose proof (fun w' => faiss_stage_shape (set_text "" bookmark) w') as Hf.
  match goal with |- context [faiss_stage _ ?w'] =>
    destruct (Hf w') as (Hr & _); destruct (faiss_stage _ w') as [r5 w5] end.
  simpl in *. by subst r5.
Qed.

(** X12. sources that yield nothing but whitespace count as no text. When
    every source either fails or yields only whitespace (also when there
    is no source at all), the run returns with the text set to the empty
    string and the embedding field as it was, stores that text, calls
    neither model and attaches no tag. *)
Theorem blank_sources_give_no_text (env : Env) (bookmark : models.Bookmark)
    (w : World) :
  (∀ url, url ∈ models.links bookmark →
     match extract_text_from_url env url with
     | Return t => blank t = true
     | Raise => True
     | Abort => False
     end) →
  (∀ path, path ∈ models.files bookmark →
     match extract_text_from_file env path with
     | Return t => blank t = true
     | Raise => True
     | Abort => False
     end) →
  (process_bookmark env bookmark w).1 = Return (set_text "" bookmark) ∧
  bookmark_table (db (process_bookmark env bookmark w).2) !! models.id bookmark =
    Some {| row_text := ""; row_embedding := models.embedding bookmark |} ∧
  embedder_calls (new_events w (process_bookmark env bookmark w).2) = [] ∧
  tagger_calls (new_events w (process_bookmark env bookmark w).2) = [] ∧
  bookmark_tags (db (process_bookmark env bookmark w).2) = bookmark_tags (db w).
Proof.
  intros Hl Hf.
  assert (Hblank : ∀ (extract : string → outcome string) sources,
            (∀ s, s ∈ sources → match extract s with
                                 | Return t => blank t = true
                                 | Raise => True
                                 | Abort => False
                                 end) →
            Forall (fun t => blank t = true) (extracted extract sources)).
  { intros extract sources Hs. apply Forall_forall. intros t Ht.
    apply list_elem_of_omap in Ht as (s & Hin & Hx). specialize (Hs s Hin).
    destruct (extract s); by simplify_eq. }
  assert (Hg : (gather_text env bookmark w).1 = Return EmptyString).
  { rewrite gather_text_extracted.
    - f_equal. apply strip_blank, join_blank, Forall_app. split; by apply Hblank.
    - intros url Hu. specialize (Hl url Hu). by destruct (extract_text_from_url env url).
    - intros p Hp. specialize (Hf p Hp). by destruct (extract_text_from_file env p). }
  destruct (gather_text env bookmark w) as [r1 w1] eqn:Eg. simpl in Hg. subst r1.
  pose proof (process_bookmark_without_text env bookmark w w1 Eg) as Hret.
  split; [exact Hret|].
  destruct (process_bookmark_run env bookmark w)
    as [(Hr & _)
       |(ft & b & w2 & pre & post & Hgt & He & _ & Hr & Ht & _ & _
          & Epre & Epost & Tpre & Tpost & Hrow)]; [congruence|].
  rewrite Eg in Hgt, He. simpl in Hgt, He. injection Hgt as <-.
  assert (b = set_text "" bookmark) as -> by (destruct Hr; congruence).
  split; [by rewrite Hrow, lookup_insert_eq|].
  rewrite (new_events_app _ _ _ Ht).
  change (Bookmark_saved ?i ?r :: post) with ([Bookmark_saved i r] ++ post).
  rewrite !embedder_calls_app, !tagger_calls_app, Epre, Epost, Tpre, (Tpost Hret).
  split; [done|]. split; [done|].
  pose proof (gather_text_shape env bookmark w) as ((D1 & _) & _).
  rewrite Eg in D1. simpl in D1.
  clear -Eg D1. unfold process_bookmark, bind. rewrite Eg.
  unfold embedding_stage, tagging_stage. simpl.
  match goal with |- context [faiss_stage ?b ?w'] =>
    pose proof (faiss_stage_shape b w') as (_ & Hd & _);
    destruct (faiss_stage b w') as [r5 w5] end.
  simpl in Hd. destruct r5; simpl; rewrite Hd; simpl; by rewrite D1.
Qed.

Lemma blank_sources_give_no_text_witness :
  let w := initial_world empty_db fresh_disk in
  (process_bookmark env_blank_sources new_bookmark w).1 = Return (set_text "" new_bookmark) ∧
  embedder_calls (new_events w (process_bookmark env_blank_sources new_bookmark w).2) = [].
Proof.
  intros w.
  destruct (blank_sources_give_no_text env_blank_sources new_bookmark w)
    as (Hr & _ & He & _).
  - intros url _. reflexivity.
  - intros path _. reflexivity.
  - split; [exact Hr|exact He].
Defined.

(** ** From the pipeline to the index *)

Lemma process_bookmark_saves_row env bookmark w full_text w1 b w2 :
  gather_text env bookmark w = (Return full_text, w1) →
  embedding_stage env full_text (set_text full_text bookmark) w1 = (Return b, w2) →
  bookmark_table (db (process_bookmark env bookmark w).2) !! models.id bookmark
    = Some (row_of b) ∧
  ((process_bookmark env bookmark w).1 = Return b ∨
   (process_bookmark env bookmark w).1 = Abort).
Proof.
  intros Eg Ee.
  pose proof (embedding_stage_shape env full_text (set_text full_text bookmark) w1)
    as (_ & _ & R2).
  rewrite Ee in R2. simpl in R2. destruct R2 as (Hid & _ & _).
  unfold process_bookmark, bind. rewrite Eg, Ee.
  unfold save at 1. unfold bind, modify, emit. simpl.
  set (w3 := log _ _).
  assert (H3 : bookmark_table (db w3) !! models.id bookmark = Some (row_of b)).
  { subst w3. simpl. rewrite Hid. apply lookup_insert_eq. }
  pose proof (tagging_stage_shape env full_text b w3) as (Hbt & _ & _ & _ & _ & _ & R4).
  destruct (tagging_stage env full_text b w3) as [[[]| |] w4]; simpl in *; [|done|].
  2:{ rewrite Hbt. split; [done|by right]. }
  pose proof (faiss_stage_shape b w4) as (R5 & D5 & _).
  destruct (faiss_stage b w4) as [r5 w5]. simpl in *. subst r5. simpl.
  rewrite D5, Hbt. split; [done|by left].
Qed.

(** X13. a failed embedding clears the stored vector and leaves the index
    alone. When text was gathered and the embedder raises, the row of the
    document is stored with that text and no embedding, whatever embedding
    it had, and the vector store, an old vector of the document included,
    stays as it was. *)
Theorem failed_embedding_clears_row_only (env : Env) (bookmark : models.Bookmark)
    (w : World) (full_text : string) :
  (gather_text env bookmark w).1 = Return full_text →
  nonempty full_text = true →
  (generate_embedding env full_text (gather_text env bookmark w).2).1 = Raise →
  bookmark_table (db (process_bookmark env bookmark w).2) !! models.id bookmark
    = Some {| row_text := full_text; row_embedding := None |} ∧
  disk (process_bookmark env bookmark w).2 = disk w.
Proof.
  intros Hg Ht Hraise.
  destruct (gather_text env bookmark w) as [r1 w1] eqn:Eg. simpl in Hg, Hraise.
  subst r1.
  assert (Ee : ∃ w2, embedding_stage env full_text (set_text full_text bookmark) w1
                     = (Return (set_embedding None (set_text full_text bookmark)), w2)).
  { unfold embedding_stage. rewrite Ht.
    unfold try_except, bind, ret, print, emit, modify.
    destruct (generate_embedding env full_text w1) as [r w']. simpl in Hraise.
    subst r. simpl. eauto. }
  destruct Ee as [w2 Ee].
  destruct (process_bookmark_saves_row env bookmark w full_text w1 _ w2 Eg Ee)
    as (Hrow & Hr).
  split; [exact Hrow|].
  destruct (process_bookmark_effects env bookmark w) as (_ & _ & _ & _ & Hd & Ha & _).
  destruct Hr as [Hr|Hr]; [|by apply Ha].
  by rewrite (Hd _ Hr).
Qed.

Lemma failed_embedding_clears_row_only_witness :
  bookmark_table (db (process_bookmark env_embedder_down processed_bookmark
                        processed_world).2) !! 5
    = Some {| row_text := "hello"; row_embedding := None |} ∧
  stored (disk (process_bookmark env_embedder_down processed_bookmark
                  processed_world).2) = [[1%Q; 0%Q]].
Proof.
  destruct (failed_embedding_clears_row_only env_embedder_down processed_bookmark
              processed_world "hello") as (Hrow & Hd);
    [vm_compute; reflexivity | reflexivity | vm_compute; reflexivity |].
  split; [exact Hrow|]. rewrite Hd. vm_compute. reflexivity.
Defined.




(** ** Stripping markup *)

Example strip_tags_sample :
  Extractor.strip_tags "<p>one <b>two</b></p> 1 < 2" = "one two 1 < 2"%string ∧
  Extractor.strip_tags "<>" = "<>"%string ∧
  Extractor.strip_tags "<>>" = ""%string ∧
  Extractor.strip_tags "<<b>b>" = "<b>"%string.
Proof. repeat split. Qed.

Lemma sub_tags_sublist (skip : nat) (s : string) :
  chars (Extractor.sub_tags skip s) `sublist_of` chars s.
Proof.
  revert skip. induction s as [|c s IH]; intros skip; simpl; [done|].
  destruct skip as [|n].
  - destruct (Ascii.eqb c "<").
    + destruct (Extractor.tag_length s) as [n|]; simpl.
      * by apply sublist_cons.
      * by apply sublist_skip.
    + simpl. by apply sublist_skip.
  - by apply sublist_cons.
Qed.

Lemma sub_tags_plain (s : string) :
  "<"%char ∉ chars s → Extractor.sub_tags 0 s = s.
Proof.
  induction s as [|c s IH]; simpl; [done|].
  intros Hnot. apply not_elem_of_cons in Hnot as [Hc Hs].
  destruct (Ascii.eqb_spec c "<") as [->|_]; [done|].
  by rewrite IH.
Qed.

Lemma sub_tags_skip (s1 s2 : string) :
  Extractor.sub_tags (String.length s1) (s1 +:+ s2) = Extractor.sub_tags 0 s2.
Proof. induction s1 as [|c s1 IH]; simpl; [done|]. exact IH. Qed.

Lemma sub_tags_keep (s1 s2 : string) :
  "<"%char ∉ chars s1 →
  Extractor.sub_tags 0 (s1 +:+ s2) = s1 +:+ Extractor.sub_tags 0 s2.
Proof.
  induction s1 as [|c s1 IH]; simpl; [done|].
  intros Hnot. apply not_elem_of_cons in Hnot as [Hc Hs].
  destruct (Ascii.eqb_spec c "<") as [->|_]; [done|].
  by rewrite IH.
Qed.

Lemma tag_close_inside (body post : string) :
  "<"%char ∉ chars body → ">"%char ∉ chars body →
  Extractor.tag_close (body +:+ String ">" post) = Some (S (String.length body)).
Proof.
  induction body as [|c body IH]; simpl; [done|].
  intros [Hc1 H1]%not_elem_of_cons [Hc2 H2]%not_elem_of_cons.
  destruct (Ascii.eqb_spec c ">") as [->|_]; [done|].
  destruct (Ascii.eqb_spec c "<") as [->|_]; [done|].
  by rewrite IH.
Qed.

(** X15. a tag is removed with its brackets. For text before it without
    ["<"], and a tag whose inside starts with a character other than
    ["<"] and goes on without ["<"] or [">"], stripping removes the tag
    and its brackets, keeps the text before it and continues after it. *)
Theorem strip_tags_removes_tag (before inside after : string) (c : Ascii.ascii) :
  "<"%char ∉ chars before →
  c ≠ "<"%char →
  "<"%char ∉ chars inside → ">"%char ∉ chars inside →
  Extractor.strip_tags (before +:+ String "<" (String c inside) +:+ String ">" after)
  = before +:+ Extractor.strip_tags after.
Proof.
  intros Hb Hc Hi1 Hi2. unfold Extractor.strip_tags.
  change (String "<" (String c inside) +:+ String ">" after)
    with (String "<" (String c (inside +:+ String ">" after))).
  rewrite sub_tags_keep by done. f_equal. simpl.
  destruct (Ascii.eqb_spec c "<") as [|_]; [done|].
  rewrite tag_close_inside by done. simpl.
  clear. induction inside as [|x inside IH]; simpl; [done|]. exact IH.
Qed.

Lemma strip_tags_removes_tag_witness :
  Extractor.strip_tags "see <a href=x>this" = "see this"%string.
Proof.
  assert (H1 : "<"%char ∉ chars "see ") by (cbv [chars list_ascii_of_string]; compute_done).
  assert (H2 : "a"%char ≠ "<"%char) by discriminate.
  assert (H3 : "<"%char ∉ chars " href=x") by (cbv [chars list_ascii_of_string]; compute_done).
  assert (H4 : ">"%char ∉ chars " href=x") by (cbv [chars list_ascii_of_string]; compute_done).
  exact (strip_tags_removes_tag "see " " href=x" "this" "a" H1 H2 H3 H4).
Defined.

(** X16. what [extract_text_from_url] returns. It returns exactly when
    [requests] can be imported, the fetch returns and the status code is
    outside 400..599; the text returned is then the body with the matches
    of the tag pattern deleted: a subsequence of the body's characters,
    and the body itself when it holds no ["<"]. *)
Theorem extract_text_from_url_returns (requests : Extractor.Requests)
    (url t : string) :
  Extractor.extract_text_from_url requests url = Return t ↔
  ∃ r : Extractor.Response,
    Extractor.requests_installed requests = true ∧
    Extractor.get requests url = Return r ∧
    (Extractor.status_code r < 400 ∨ 600 ≤ Extractor.status_code r) ∧
    t = Extractor.strip_tags (Extractor.text r) ∧
    chars t `sublist_of` chars (Extractor.text r) ∧
    ("<"%char ∉ chars (Extractor.text r) → t = Extractor.text r).
Proof.
  unfold Extractor.extract_text_from_url, Extractor.raise_for_status. split.
  - destruct (Extractor.requests_installed requests); [|done].
    destruct (Extractor.get requests url) as [r| |]; [|done..].
    destruct (400 <=? Extractor.status_code r) eqn:E1;
      destruct (Extractor.status_code r <? 600) eqn:E2; simpl; try done;
      intros [= <-]; exists r; (split; [done|]); (split; [done|]);
      (split; [lia|]); (split; [done|]);
      (split; [apply sub_tags_sublist|apply sub_tags_plain]).
  - intros (r & -> & -> & Hs & -> & _).
    destruct (400 <=? Extractor.status_code r) eqn:E1;
      destruct (Extractor.status_code r <? 600) eqn:E2; simpl; try done; lia.
Qed.

Lemma extract_text_from_url_returns_witness :
  Extractor.extract_text_from_url sample_requests "http://a" = Return "one two 1 < 2"%string ∧
  Extractor.extract_text_from_url sample_requests "http://b" = Raise ∧
  ∃ r : Extractor.Response,
    Extractor.get sample_requests "http://a" = Return r ∧
    chars "one two 1 < 2" `sublist_of` chars (Extractor.text r).
Proof.
  split; [reflexivity|]. split; [reflexivity|].
  destruct (proj1 (extract_text_from_url_returns sample_requests "http://a"
                     "one two 1 < 2") eq_refl) as (r & _ & Hg & _ & _ & Hsub & _).
  exists r. split; [exact Hg|exact Hsub].
Defined.

(** ** Dispatch on the extension *)

Example splitext_samples :
  Extractor.splitext "uploads/paper.PDF" = ("uploads/paper", ".PDF")%string ∧
  Extractor.splitext "uploads/archive.tar.gz" = ("uploads/archive.tar", ".gz")%string ∧
  Extractor.splitext "uploads/.pdf" = ("uploads/.pdf", "")%string ∧
  Extractor.splitext "up.loads/notes" = ("up.loads/notes", "")%string ∧
  Extractor.splitext "..pdf" = ("..pdf", "")%string ∧
  Extractor.splitext "a." = ("a", ".")%string.
Proof. repeat split. Qed.

Lemma string_app_nil (s : string) : EmptyString +:+ s = s.
Proof. reflexivity. Qed.

Lemma string_app_cons (x : Ascii.ascii) (s1 s2 : string) :
  String x s1 +:+ s2 = String x (s1 +:+ s2).
Proof. reflexivity. Qed.

Lemma rfind_from_None c s i :
  c ∉ chars s → Extractor.rfind_from c s i = None.
Proof.
  revert i. induction s as [|x s IH]; intros i; simpl; [done|].
  intros [Hx Hs]%not_elem_of_cons. rewrite IH by done.
  destruct (Ascii.eqb_spec x c); [congruence|done].
Qed.

Lemma rfind_from_app c s1 s2 i :
  Extractor.rfind_from c (s1 +:+ s2) i =
  match Extractor.rfind_from c s2 (i + String.length s1) with
  | Some j => Some j
  | None => Extractor.rfind_from c s1 i
  end.
Proof.
  revert i. induction s1 as [|x s1 IH]; intros i;
    rewrite ?string_app_nil, ?string_app_cons; simpl.
  - rewrite Nat.add_0_r. destruct (Extractor.rfind_from c s2 i); reflexivity.
  - rewrite IH. replace (S i + String.length s1)%nat
      with (i + S (String.length s1))%nat by lia.
    destruct (Extractor.rfind_from c s2 _); reflexivity.
Qed.

Lemma rfind_from_bound c s i j :
  Extractor.rfind_from c s i = Some j → (i ≤ j < i + String.length s)%nat.
Proof.
  revert i. induction s as [|x s IH]; intros i; simpl; [done|].
  destruct (Extractor.rfind_from c s (S i)) as [j'|] eqn:E.
  - intros [= <-]. apply IH in E. lia.
  - destruct (Ascii.eqb x c); [|done]. intros [= <-]. lia.
Qed.

Lemma rfind_from_head c s i :
  c ∉ chars s → Extractor.rfind_from c (String c s) i = Some i.
Proof.
  intros Hs. simpl. rewrite rfind_from_None by done. by rewrite Ascii.eqb_refl.
Qed.

Lemma string_length_app s1 s2 :
  String.length (s1 +:+ s2) = (String.length s1 + String.length s2)%nat.
Proof.
  induction s1 as [|x s1 IH]; rewrite ?string_app_nil, ?string_app_cons; simpl;
    [done|]. by rewrite IH.
Qed.

Lemma string_app_assoc s1 s2 s3 : (s1 +:+ s2) +:+ s3 = s1 +:+ (s2 +:+ s3).
Proof.
  induction s1 as [|x s1 IH]; rewrite ?string_app_nil, ?string_app_cons; [done|].
  by rewrite IH.
Qed.

Lemma chars_app s1 s2 : chars (s1 +:+ s2) = chars s1 ++ chars s2.
Proof.
  induction s1 as [|x s1 IH]; rewrite ?string_app_nil, ?string_app_cons; [done|].
  unfold chars in *. simpl. by rewrite IH.
Qed.

Lemma substring_prefix s1 s2 : substring 0 (String.length s1) (s1 +:+ s2) = s1.
Proof.
  induction s1 as [|x s1 IH]; rewrite ?string_app_nil, ?string_app_cons; simpl;
    [by destruct s2|]. by rewrite IH.
Qed.

Lemma substring_skip s1 s2 m :
  substring (String.length s1) m (s1 +:+ s2) = substring 0 m s2.
Proof.
  induction s1 as [|x s1 IH]; rewrite ?string_app_nil, ?string_app_cons; simpl;
    [done|]. exact IH.
Qed.

Lemma substring_all s : substring 0 (String.length s) s = s.
Proof. induction s as [|x s IH]; simpl; [done|]. by rewrite IH. Qed.

(** Where the file name starts. *)
Lemma filename_index dir rest :
  is_dir_prefix dir → "/"%char ∉ chars rest →
  match Extractor.rfind "/" (dir +:+ rest) with
  | Some sepIndex => S sepIndex
  | None => 0%nat
  end = String.length dir.
Proof.
  intros Hdir Hrest. unfold Extractor.rfind. rewrite rfind_from_app.
  rewrite rfind_from_None by done.
  destruct Hdir as [->|[d ->]]; [done|].
  rewrite rfind_from_app. simpl. rewrite string_length_app. simpl. lia.
Qed.

Lemma splitext_extension dir name e :
  is_dir_prefix dir →
  "/"%char ∉ chars name → Extractor.has_name_char name = true →
  "/"%char ∉ chars e → "."%char ∉ chars e →
  Extractor.splitext (dir +:+ name +:+ String "." e) = (dir +:+ name, String "." e).
Proof.
  intros Hdir Hn Hname He Hdot. unfold Extractor.splitext.
  assert (Hrest : "/"%char ∉ chars (name +:+ String "." e)).
  { rewrite chars_app. apply not_elem_of_app. split; [done|].
    apply not_elem_of_cons. split; [done|]. exact He. }
  rewrite (filename_index dir _ Hdir Hrest).
  assert (Hd : Extractor.rfind "." (dir +:+ name +:+ String "." e)
               = Some (String.length dir + String.length name)%nat).
  { unfold Extractor.rfind. rewrite <- string_app_assoc, rfind_from_app.
    rewrite rfind_from_head by done. by rewrite string_length_app. }
  rewrite Hd.
  replace (String.length dir <=? String.length dir + String.length name)%nat
    with true by (symmetry; apply Nat.leb_le; lia).
  replace (String.length dir + String.length name - String.length dir)%nat
    with (String.length name) by lia.
  rewrite substring_skip, substring_prefix, Hname. simpl.
  rewrite <- string_app_assoc, <- string_length_app.
  rewrite substring_prefix, substring_skip.
  rewrite !string_length_app.
  replace (String.length dir + String.length name + String.length (String "." e)
           - (String.length dir + String.length name))%nat
    with (String.length (String "." e)) by lia.
  by rewrite substring_all.
Qed.

Lemma dots_prefix dots e (m : nat) :
  Extractor.has_name_char dots = false → (m ≤ String.length dots)%nat →
  Extractor.has_name_char (substring 0 m (dots +:+ e)) = false.
Proof.
  revert m. induction dots as [|x dots IH]; intros m Hd Hm;
    rewrite ?string_app_nil, ?string_app_cons; simpl in Hd, Hm.
  - assert (m = 0%nat) as -> by lia. by destruct e.
  - apply orb_false_elim in Hd as [Hx Hd].
    destruct m as [|m]; simpl; [done|]. rewrite Hx. simpl. apply IH; [done|lia].
Qed.

Lemma dots_no_slash dots :
  Extractor.has_name_char dots = false → "/"%char ∉ chars dots.
Proof.
  induction dots as [|x dots IH]; simpl; [intros _; apply not_elem_of_nil|].
  intros [Hx Hd]%orb_false_elim. apply not_elem_of_cons. split; [|by apply IH].
  intros <-. done.
Qed.

Lemma splitext_no_extension dir dots e :
  is_dir_prefix dir →
  Extractor.has_name_char dots = false →
  "/"%char ∉ chars e → "."%char ∉ chars e →
  Extractor.splitext (dir +:+ dots +:+ e) = (dir +:+ dots +:+ e, EmptyString).
Proof.
  intros Hdir Hdots He Hdot. unfold Extractor.splitext.
  destruct (Extractor.rfind "." (dir +:+ dots +:+ e)) as [dot|] eqn:Ed; [|done].
  assert (Hrest : "/"%char ∉ chars (dots +:+ e)).
  { rewrite chars_app. apply not_elem_of_app. split; [by apply dots_no_slash|done]. }
  rewrite (filename_index dir _ Hdir Hrest).
  unfold Extractor.rfind in Ed.
  rewrite <- string_app_assoc, rfind_from_app in Ed.
  rewrite rfind_from_None in Ed by done.
  apply rfind_from_bound in Ed. rewrite string_length_app in Ed.
  destruct (String.length dir <=? dot)%nat eqn:Hle; [|done]. simpl.
  apply Nat.leb_le in Hle.
  rewrite substring_skip.
  rewrite dots_prefix; [done|done|lia].
Qed.

Lemma lower_dot e : Extractor.lower (String "." e) = String "." (Extractor.lower e).
Proof. reflexivity. Qed.

(** X17. files are dispatched on the extension after the last dot of the
    file name, whatever its case. For a path [dir/name.e], where [name]
    has a character other than a dot and [e] has neither dot nor slash:
    [e] spelling [pdf] in any case goes to pdfminer, [docx] or [doc] to
    python-docx with the paragraphs joined by newlines, and in both cases
    a missing package raises; every other [e] is read as plain text. *)
Theorem files_dispatched_on_extension (files : Extractor.Files)
    (dir name e : string) :
  is_dir_prefix dir →
  "/"%char ∉ chars name → Extractor.has_name_char name = true →
  "/"%char ∉ chars e → "."%char ∉ chars e →
  let file_path := dir +:+ name +:+ String "." e in
  (Extractor.lower e = "pdf"%string →
   Extractor.extract_text_from_file files file_path =
   if Extractor.pdfminer_installed files
   then Extractor.pdf_extract_text files file_path else Raise) ∧
  (Extractor.lower e = "docx"%string ∨ Extractor.lower e = "doc"%string →
   Extractor.extract_text_from_file files file_path =
   if Extractor.docx_installed files
   then match Extractor.docx_paragraphs files file_path with
        | Return ps => Return (join newline ps)
        | Raise => Raise
        | Abort => Abort
        end
   else Raise) ∧
  (Extractor.lower e ≠ "pdf"%string → Extractor.lower e ≠ "docx"%string →
   Extractor.lower e ≠ "doc"%string →
   Extractor.extract_text_from_file files file_path =
   Extractor.read_text files file_path).
Proof.
  intros Hdir Hn Hname He Hdot file_path.
  unfold Extractor.extract_text_from_file. subst file_path.
  rewrite splitext_extension by done. simpl snd. rewrite lower_dot.
  split; [|split].
  - intros ->. reflexivity.
  - intros [-> | ->]; reflexivity.
  - intros H1 H2 H3.
    destruct (String.eqb_spec (String "." (Extractor.lower e)) ".pdf") as [[= E]|_];
      [done|].
    destruct (String.eqb_spec (String "." (Extractor.lower e)) ".docx") as [[= E]|_];
      [done|].
    destruct (String.eqb_spec (String "." (Extractor.lower e)) ".doc") as [[= E]|_];
      [done|].
    reflexivity.
Qed.

Lemma files_dispatched_on_extension_witness :
  Extractor.extract_text_from_file sample_files "uploads/paper.PDF" = Return "pdf text"%string ∧
  Extractor.extract_text_from_file sample_files "uploads/notes.Doc" = Raise ∧
  Extractor.extract_text_from_file sample_files "uploads/archive.tar.gz" = Return "plain text"%string.
Proof.
  assert (Hd : is_dir_prefix "uploads/") by (right; by exists "uploads"%string).
  destruct (files_dispatched_on_extension sample_files "uploads/" "paper" "PDF")
    as (H1 & _ & _); [done| cbv [chars list_ascii_of_string]; compute_done | done
                     | cbv [chars list_ascii_of_string]; compute_done
                     | cbv [chars list_ascii_of_string]; compute_done |].
  destruct (files_dispatched_on_extension sample_files "uploads/" "notes" "Doc")
    as (_ & H2 & _); [done| cbv [chars list_ascii_of_string]; compute_done | done
                     | cbv [chars list_ascii_of_string]; compute_done
                     | cbv [chars list_ascii_of_string]; compute_done |].
  destruct (files_dispatched_on_extension sample_files "uploads/" "archive.tar" "gz")
    as (_ & _ & H3); [done| cbv [chars list_ascii_of_string]; compute_done | done
                     | cbv [chars list_ascii_of_string]; compute_done
                     | cbv [chars list_ascii_of_string]; compute_done |].
  split; [exact (H1 eq_refl)|]. split; [exact (H2 (or_intror eq_refl))|].
  apply H3; discriminate.
Defined.

(** X18. a file name made of dots and a dot-free remainder has no
    extension. A path whose file name is [.pdf], [..docx] or has no dot at
    all (dots in the directory part do not count) is read as plain text,
    whatever follows the dots. *)
Theorem dot_files_are_read_as_text (files : Extractor.Files) (dir dots e : string) :
  is_dir_prefix dir →
  Extractor.has_name_char dots = false →
  "/"%char ∉ chars e → "."%char ∉ chars e →
  Extractor.extract_text_from_file files (dir +:+ dots +:+ e) =
  Extractor.read_text files (dir +:+ dots +:+ e).
Proof.
  intros Hdir Hdots He Hdot. unfold Extractor.extract_text_from_file.
  by rewrite splitext_no_extension.
Qed.

Lemma dot_files_are_read_as_text_witness :
  Extractor.extract_text_from_file sample_files "uploads/.pdf" = Return "plain text"%string ∧
  Extractor.extract_text_from_file sample_files "up.loads/pdf" = Return "plain text"%string.
Proof.
  split.
  - apply (dot_files_are_read_as_text sample_files "uploads/" "." "pdf");
      [right; by exists "uploads"%string | done
      | cbv [chars list_ascii_of_string]; compute_done
      | cbv [chars list_ascii_of_string]; compute_done].
  - apply (dot_files_are_read_as_text sample_files "up.loads/" "" "pdf");
      [right; by exists "up.loads"%string | done
      | cbv [chars list_ascii_of_string]; compute_done
      | cbv [chars list_ascii_of_string]; compute_done].
Defined.

Example splitlines_samples :
  views.splitlines "" = [] ∧
  views.splitlines "a" = ["a"%string] ∧
  views.splitlines (String "a" newline) = ["a"%string] ∧
  views.splitlines (newline +:+ "b") = [""; "b"]%string ∧
  views.splitlines ("a" +:+ newline +:+ newline +:+ "b") = ["a"; ""; "b"]%string ∧
  views.splitlines ("a" +:+ String (ascii_of_nat 13) newline +:+ "b") = ["a"; "b"]%string ∧
  views.splitlines ("a" +:+ String (ascii_of_nat 13) (String (ascii_of_nat 13) "b"))
    = ["a"; ""; "b"]%string.
Proof. repeat split. Qed.

(** ** The lines of the links field *)

Lemma linebreak_is_space c : views.is_linebreak c = true → isspace c = true.
Proof.
  unfold views.is_linebreak, isspace. set (n := nat_of_ascii c).
  rewrite !orb_true_iff, !andb_true_iff, !Nat.leb_le, !Nat.eqb_eq. lia.
Qed.

Lemma lstrip_head s a u : lstrip s = String a u → isspace a = false.
Proof.
  induction s as [|c s IH]; simpl; [done|].
  destruct (isspace c) eqn:E; [exact IH|]. by intros [= <- _].
Qed.

Lemma no_trailing_break_cons c s :
  s ≠ EmptyString → no_trailing_break (String c s) ↔ no_trailing_break s.
Proof. by destruct s. Qed.

Lemma rev_app_no_trailing_break u acc :
  acc ≠ EmptyString → no_trailing_break acc → no_trailing_break (String.rev_app u acc).
Proof.
  revert acc. induction u as [|a u IH]; intros acc Hne Hacc; simpl; [done|].
  apply IH; [done|]. by apply no_trailing_break_cons.
Qed.

Lemma strip_no_trailing_break s : no_trailing_break (strip s).
Proof.
  unfold strip. destruct (lstrip (String.rev (lstrip s))) as [|a u] eqn:E; [done|].
  apply lstrip_head in E. unfold String.rev. simpl.
  apply rev_app_no_trailing_break; [done|]. simpl.
  destruct (views.is_linebreak a) eqn:Hb; [|done].
  apply linebreak_is_space in Hb. congruence.
Qed.

Lemma splitlines_from_nonempty c s :
  views.splitlines_from false (String c s) ≠ [].
Proof.
  simpl. destruct (views.is_linebreak c); [done|].
  by destruct (views.splitlines_from false s).
Qed.

Lemma join_cons_cons (x y : string) (ls : list string) :
  join newline (x :: y :: ls) = x +:+ newline +:+ join newline (y :: ls).
Proof. reflexivity. Qed.

Lemma join_extend_line c lines :
  lines ≠ [] → join newline (views.extend_line c lines) = String c (join newline lines).
Proof.
  destruct lines as [|l [|l' ls]]; [done|done|]. intros _.
  unfold views.extend_line. rewrite !join_cons_cons. by rewrite string_app_cons.
Qed.

Lemma splitlines_from_cons flag c s :
  views.splitlines_from flag (String c s) =
  if flag && Ascii.eqb c (ascii_of_nat 10) then views.splitlines_from false s
  else if views.is_linebreak c
       then EmptyString :: views.splitlines_from (Ascii.eqb c (ascii_of_nat 13)) s
       else views.extend_line c (views.splitlines_from false s).
Proof. reflexivity. Qed.

Lemma join_splitlines s :
  (∀ c, c ∈ chars s → views.is_linebreak c = true → c = ascii_of_nat 10) →
  no_trailing_break s →
  join newline (views.splitlines_from false s) = s.
Proof.
  induction s as [|c s IH]; intros Hlf Hend; [done|].
  assert (Hlf' : ∀ c', c' ∈ chars s → views.is_linebreak c' = true → c' = ascii_of_nat 10).
  { intros c' Hc'. apply Hlf. by right. }
  rewrite splitlines_from_cons. cbn [andb]. destruct (views.is_linebreak c) eqn:Hb.
  - assert (c = ascii_of_nat 10) as -> by (apply Hlf; [by left|done]).
    destruct s as [|c' s]; [simpl in Hend; congruence|].
    apply no_trailing_break_cons in Hend; [|done].
    change (Ascii.eqb (ascii_of_nat 10) (ascii_of_nat 13)) with false.
    pose proof (splitlines_from_nonempty c' s) as Hne.
    destruct (views.splitlines_from false (String c' s)) as [|l ls] eqn:E; [done|].
    rewrite join_cons_cons, IH by done. reflexivity.
  - destruct s as [|c' s]; [done|].
    apply no_trailing_break_cons in Hend; [|done].
    rewrite join_extend_line by apply splitlines_from_nonempty.
    by rewrite IH.
Qed.

Lemma splitlines_from_no_break flag s :
  Forall (fun l => ∀ c, c ∈ chars l → views.is_linebreak c = false)
    (views.splitlines_from flag s).
Proof.
  revert flag. induction s as [|c s IH]; intros flag; simpl; [constructor|].
  destruct (flag && Ascii.eqb c (ascii_of_nat 10)); [apply IH|].
  destruct (views.is_linebreak c) eqn:Hb.
  - constructor; [|apply IH]. by intros c' ?%elem_of_nil.
  - specialize (IH false).
    destruct (views.splitlines_from false s) as [|l ls]; simpl.
    + constructor; [|constructor].
      intros c' Hc'. apply list_elem_of_singleton in Hc'. by subst.
    + apply Forall_cons in IH as [Hl Hls]. constructor; [|done].
      intros c' [->|Hc']%elem_of_cons; [done|by apply Hl].
Qed.

(** X19. the urls taken from the links field. No url holds a line
    boundary; and when the only line boundaries of the stripped field are
    line feeds, joining the urls by line feeds gives the stripped field
    back: nothing is dropped, so an empty line inside the field becomes an
    empty url. *)
Theorem links_field_split_into_lines (links : string) :
  (∀ url c, url ∈ views.urls_of_links_field links → c ∈ chars url →
     views.is_linebreak c = false) ∧
  ((∀ c, c ∈ chars (strip links) → views.is_linebreak c = true →
      c = ascii_of_nat 10) →
   join newline (views.urls_of_links_field links) = strip links).
Proof.
  unfold views.urls_of_links_field, views.splitlines. split.
  - intros url c Hurl Hc. destruct (nonempty links); [|by apply elem_of_nil in Hurl].
    pose proof (splitlines_from_no_break false (strip links)) as HF.
    rewrite Forall_forall in HF. by apply (HF url).
  - intros Hlf. destruct links as [|x links]; [done|]. simpl nonempty. cbv iota.
    apply join_splitlines; [done|apply strip_no_trailing_break].
Qed.

Lemma links_field_split_into_lines_witness :
  let field := (" http://a" +:+ newline +:+ newline +:+ "http://b ")%string in
  views.urls_of_links_field field = ["http://a"; ""; "http://b"]%string ∧
  join newline (views.urls_of_links_field field) = strip field.
Proof.
  intros field. split; [reflexivity|].
  apply (links_field_split_into_lines field).
  apply (proj1 (Forall_forall
                  (fun c => views.is_linebreak c = true → c = ascii_of_nat 10) _)).
  compute_done.
Defined.

(** ** Categories and their descendants *)

Example collect_samples :
  views.collect_category_ids 10 sample_categories 1 = Return [1; 2; 4; 3] ∧
  views.collect_category_ids 2 sample_categories 1 = Raise ∧
  views.collect_category_ids 1000 sample_categories 5 = Raise.
Proof. split; [|split]; vm_compute; reflexivity. Qed.

Lemma collect_never_aborts depth table c :
  views.collect_category_ids depth table c ≠ Abort.
Proof.
  revert c. induction depth as [|depth IH]; intros c; simpl; [done|].
  assert (H : ∀ kids, views.extend_with (views.collect_category_ids depth table) kids
                      ≠ Abort).
  { induction kids as [|k kids IHk]; simpl; [done|].
    specialize (IH k).
    destruct (views.collect_category_ids depth table k); [|done..].
    by destruct (views.extend_with _ kids). }
  specialize (H (views.children table c)).
  by destruct (views.extend_with _ _).
Qed.

Lemma extend_with_Raise (f : Z → outcome (list Z)) kids k :
  (∀ x, f x ≠ Abort) → k ∈ kids → f k = Raise → views.extend_with f kids = Raise.
Proof.
  intros Hf. induction kids as [|x kids IH]; intros Hk Hr; [by apply elem_of_nil in Hk|].
  simpl. apply elem_of_cons in Hk as [<-|Hk]; [by rewrite Hr|].
  specialize (Hf x). destruct (f x); [|done..]. by rewrite IH.
Qed.

Lemma reaches_cycle_child table c :
  reaches_cycle table c → ∃ k, k ∈ views.children table c ∧ reaches_cycle table k.
Proof.
  intros (y & [->|Hd] & Hy).
  - inversion Hy as [? k Hk|? k ? Hk Hky]; subst.
    + exists y. split; [done|]. exists y. split; [by left|done].
    + exists k. split; [done|]. exists y. split; [by right|done].
  - inversion Hd as [? k Hk|? k ? Hk Hky]; subst.
    + exists y. split; [done|]. exists y. split; [by left|done].
    + exists k. split; [done|]. exists y. split; [by right|done].
Qed.

(** X20. a cycle of parents makes [collect_category_ids] fail. For a
    category that is below itself (its own parent, say), and for every
    category above one, the recursion never ends: whatever the depth
    allowed, the call raises. *)
Theorem category_cycle_never_collected (table : list (Z * option Z))
    (category : Z) (depth : nat) :
  reaches_cycle table category →
  views.collect_category_ids depth table category = Raise.
Proof.
  revert category. induction depth as [|depth IH]; intros c Hc; [done|].
  simpl. destruct (reaches_cycle_child table c Hc) as (k & Hk & Hrk).
  rewrite (extend_with_Raise _ _ k); [done| |done|by apply IH].
  intros x. apply collect_never_aborts.
Qed.

Lemma category_cycle_never_collected_witness :
  views.collect_category_ids 1000 sample_categories 5 = Raise.
Proof.
  apply category_cycle_never_collected.
  exists 5. split; [by left|]. apply descends_child. compute_done.
Defined.

Lemma extend_with_Return (f : Z → outcome (list Z)) (P : Z → Z → Prop) kids :
  (∀ k, k ∈ kids → ∃ l, f k = Return l ∧ ∀ x, x ∈ l ↔ P k x) →
  ∃ l, views.extend_with f kids = Return l ∧
       ∀ x, x ∈ l ↔ ∃ k, k ∈ kids ∧ P k x.
Proof.
  induction kids as [|k kids IH]; intros Hall; simpl.
  - exists []. split; [done|]. intros x. split; [by intros ?%elem_of_nil|].
    by intros (k & ?%elem_of_nil & _).
  - destruct (Hall k) as (lk & -> & Hlk); [by left|].
    destruct IH as (l & -> & Hl); [intros; apply Hall; by right|].
    exists (lk ++ l). split; [done|]. intros x. rewrite elem_of_app, Hlk, Hl.
    split.
    + intros [H|(k' & Hk' & H)]; [exists k; split; [by left|done]|].
      exists k'. split; [by right|done].
    + intros (k' & [->|Hk']%elem_of_cons & H); [by left|]. right. eauto.
Qed.

(** X21. on a forest the ids collected are the category and everything
    below it. When every child has a smaller height than its parent (so
    there is no cycle) and the depth allowed exceeds the height of the
    category, the call returns a list that starts with the category and
    holds exactly the category and the categories below it. *)
Theorem category_forest_collected (table : list (Z * option Z))
    (height : Z → nat) (category : Z) (depth : nat) :
  (∀ c k, k ∈ views.children table c → (height k < height c)%nat) →
  (height category < depth)%nat →
  ∃ ids : list Z,
    views.collect_category_ids depth table category = Return (category :: ids) ∧
    ∀ x, x ∈ ids ↔ descends table category x.
Proof.
  intros Hh. revert category. induction depth as [|depth IH]; intros c Hd; [lia|].
  simpl.
  destruct (extend_with_Return (views.collect_category_ids depth table)
              (fun k x => x = k ∨ descends table k x) (views.children table c))
    as (l & -> & Hl).
  { intros k Hk. destruct (IH k) as (ids & -> & Hids).
    { specialize (Hh c k Hk). lia. }
    exists (k :: ids). split; [done|]. intros x.
    rewrite elem_of_cons, Hids. done. }
  exists l. split; [done|]. intros x. rewrite Hl. split.
  - intros (k & Hk & [->|Hx]); [by apply descends_child|by eapply descends_step].
  - inversion 1 as [? k Hk|? k ? Hk Hkx]; subst; eauto.
Qed.

Lemma category_forest_collected_witness :
  ∃ ids : list Z,
    views.collect_category_ids 10 [(1, None); (2, Some 1); (3, Some 1); (4, Some 2)] 1
      = Return (1 :: ids) ∧
    (4 ∈ ids).
Proof.
  destruct (category_forest_collected
              [(1, None); (2, Some 1); (3, Some 1); (4, Some 2)]
              (fun c => Z.to_nat (5 - c)) 1 10) as (ids & E & Hids).
  - intros c k Hk. unfold views.children in Hk.
    apply list_elem_of_fmap in Hk as ([k' p] & -> & Hrow).
    apply list_elem_of_filter in Hrow as [Hp Hin]. simpl in *.
    repeat (apply elem_of_cons in Hin as [Hin|Hin];
            [simplify_eq; simpl; lia|]).
    by apply elem_of_nil in Hin.
  - simpl. lia.
  - exists ids. split; [exact E|]. apply Hids.
    apply (descends_step _ 1 2 4); [compute_done|].
    apply descends_child. compute_done.
Defined.

(** ** The store only grows *)

(** X22. adds never move or overwrite what is stored. Whatever calls
    follow, returned or failed, a vector stays at its position and the
    mapping keeps the id recorded for that position; the number of vectors
    never shrinks. *)
Theorem adds_are_append_only (calls : list (Z * list Q)) (disk : Disk) (p : nat) :
  (p < disk_ntotal disk)%nat →
  stored (add_all calls disk) !! p = stored disk !! p ∧
  mapping (add_all calls disk) !! str (Z.of_nat p) = mapping disk !! str (Z.of_nat p) ∧
  (disk_ntotal disk ≤ disk_ntotal (add_all calls disk))%nat.
Proof.
  revert disk. induction calls as [|c calls IH]; intros disk Hp; [done|].
  change (add_all (c :: calls) disk) with (add_all calls (guarded_add disk c)).
  unfold guarded_add.
  destruct (add_embedding_to_index c.1 c.2 disk) as [disk'| |] eqn:E;
    [|by apply IH..].
  apply add_embedding_to_index_Return in E as [Hs Hm].
  assert (Hn : disk_ntotal disk' = S (disk_ntotal disk)).
  { unfold disk_ntotal at 1. rewrite Hs, length_app. simpl.
    fold (disk_ntotal disk). lia. }
  destruct (IH disk') as (H1 & H2 & H3); [lia|].
  rewrite H1, H2, Hs, Hm. split; [|split].
  - by apply lookup_app_l.
  - apply lookup_insert_ne. intros Heq%str_inj%Nat2Z.inj. lia.
  - lia.
Qed.

Lemma adds_are_append_only_witness :
  stored (add_all [(8, [1%Q]); (9, [2%Q; 2%Q])] toy_store) !! 1%nat = Some [0%Q; 1%Q] ∧
  mapping (add_all [(8, [1%Q]); (9, [2%Q; 2%Q])] toy_store) !! str 1 = Some 2.
Proof.
  destruct (adds_are_append_only [(8, [1%Q]); (9, [2%Q; 2%Q])] toy_store 1)
    as (H1 & H2 & _); [vm_compute; lia|].
  split; [rewrite H1|change (str 1) with (str (Z.of_nat 1)); rewrite H2];
    vm_compute; reflexivity.
Defined.

